(** * The dialogue-state engine of the rental bot (core.py)

    A shallow embedding of [RentalBotCore]: the per-client records, the
    conversation buffer, the SQLite tables it writes, the two calls to the
    completion provider and the observer lists, followed by the properties of
    [chat], [reset_client] and [get_client_info].

    Conventions of the model.
    - A Python [str] is a [string]: the sequence of the bytes of its UTF-8
      encoding.  Substring search, replacement and the brace scan work on
      bytes exactly as they do on code points, because UTF-8 is
      self-synchronising; [py_strip] knows the encodings of the characters
      Python regards as white space.
    - [await] points are sequential: one operation runs at a time.
    - Every [async with aiosqlite.connect(...)] block that writes is atomic:
      it either raises and leaves the tables alone, or it runs to its commit.
      The block of [_load_existing_clients] only reads, and assigns a counter
      after each of its three queries: it can fail at each of them.
    - Observers are opaque: a call to one is recorded as an event, whatever it
      raises is swallowed (as the [try]/[except] around each call does), and
      an observer does not call back into the engine.
    - [except Exception] is modelled for the exceptions of the database layer;
      [BaseException]s (task cancellation) are outside the model. *)

From Stdlib Require Import ZArith String Ascii List Bool Lia DecimalString.
From stdpp Require Import gmap strings list fin_maps.
Import ListNotations.

Local Open Scope string_scope.
Local Open Scope list_scope.
Local Open Scope Z_scope.
Set Warnings "-register-all".

(** ** Python text primitives *)

Module PyStr.

(** [needle in hay] at the start of [hay]. *)
Fixpoint starts_with (needle hay : string) : bool :=
  match needle, hay with
  | EmptyString, _ => true
  | String _ _, EmptyString => false
  | String a n', String b h' => if Ascii.eqb a b then starts_with n' h' else false
  end.

(** [needle in hay]: some suffix of [hay] starts with [needle]. *)
Fixpoint py_in (needle hay : string) : bool :=
  starts_with needle hay ||
  match hay with
  | EmptyString => false
  | String _ h' => py_in needle h'
  end.

(** [s.replace(old, new)] scans left to right and replaces the
    non-overlapping occurrences of [old].  [skip] counts the characters of an
    occurrence just replaced that are still to be passed over. *)
Fixpoint replace_from (old new : string) (skip : nat) (s : string) : string :=
  match s with
  | EmptyString => EmptyString
  | String c s' =>
      match skip with
      | S k => replace_from old new k s'
      | O =>
          if starts_with old s
          then new +:+ replace_from old new (Nat.pred (String.length old)) s'
          else String c (replace_from old new O s')
      end
  end.

(** With an empty [old] Python puts [new] before every character and at the
    end. *)
Fixpoint intersperse_before (new s : string) : string :=
  match s with
  | EmptyString => new
  | String c s' => new +:+ String c (intersperse_before new s')
  end.

Definition py_replace (old new s : string) : string :=
  match old with
  | EmptyString => intersperse_before new s
  | String _ _ => replace_from old new O s
  end.

(** White space for [str.strip()]: U+0009..000D, U+001C..0020, U+0085,
    U+00A0, U+1680, U+2000..200A, U+2028, U+2029, U+202F, U+205F, U+3000, as
    their UTF-8 encodings of one, two or three bytes. *)
Definition ws1 (a : ascii) : bool :=
  let n := N_of_ascii a in
  ((9 <=? n) && (n <=? 13) || (28 <=? n) && (n <=? 32))%N.

Definition ws2 (a b : ascii) : bool :=
  let x := N_of_ascii a in
  let y := N_of_ascii b in
  ((x =? 194) && ((y =? 133) || (y =? 160)))%N.

Definition ws3 (a b c : ascii) : bool :=
  let x := N_of_ascii a in
  let y := N_of_ascii b in
  let z := N_of_ascii c in
  ((x =? 225) && (y =? 154) && (z =? 128)
   || (x =? 226) && (y =? 128)
      && ((128 <=? z) && (z <=? 138) || (z =? 168) || (z =? 169) || (z =? 175))
   || (x =? 226) && (y =? 129) && (z =? 159)
   || (x =? 227) && (y =? 128) && (z =? 128))%N.

(** Drop leading white space; [fwd] tells whether the bytes are read in their
    own order or from the end of the text backwards. *)
Fixpoint lstrip_bytes (fwd : bool) (l : list ascii) : list ascii :=
  match l with
  | [] => []
  | a :: t1 =>
      if ws1 a then lstrip_bytes fwd t1
      else
        match t1 with
        | [] => l
        | b :: t2 =>
            if (if fwd then ws2 a b else ws2 b a) then lstrip_bytes fwd t2
            else
              match t2 with
              | [] => l
              | c :: t3 =>
                  if (if fwd then ws3 a b c else ws3 c b a)
                  then lstrip_bytes fwd t3
                  else l
              end
        end
  end.

Definition py_strip (s : string) : string :=
  let l := lstrip_bytes true (list_ascii_of_string s) in
  string_of_list_ascii (rev (lstrip_bytes false (rev l))).

(** [re.search(r'\{.*\}', text, re.DOTALL)].

    [match_dotstar_close l] matches [.*\}] against a prefix of [l] the way the
    backtracking matcher does: [.*] first takes everything, then gives
    characters back until a closing brace follows. *)
Fixpoint match_dotstar_close (l : list ascii) : option (list ascii) :=
  match l with
  | [] => None
  | c :: l' =>
      match match_dotstar_close l' with
      | Some m => Some (c :: m)
      | None => if Ascii.eqb c "}" then Some [c] else None
      end
  end.

(** The search tries the start positions from left to right. *)
Fixpoint search_braces (l : list ascii) : option (list ascii) :=
  match l with
  | [] => None
  | c :: l' =>
      if Ascii.eqb c "{" then
        match match_dotstar_close l' with
        | Some m => Some (c :: m)
        | None => search_braces l'
        end
      else search_braces l'
  end.

(** [json_match.group()] when the search succeeds. *)
Definition re_search_braces (text : string) : option string :=
  string_of_list_ascii <$> search_braces (list_ascii_of_string text).

End PyStr.

Import PyStr.

(** ** Data model *)

(** Values of the [json] module.  Numbers are kept as integers; nothing below
    looks inside a value. *)
Inductive json :=
| JNull
| JBool (b : bool)
| JNum (n : Z)
| JStr (s : string)
| JArr (items : list json)
| JObj (fields : list (string * json)).

(** A [Dict[str, Any]] in insertion order. *)
Definition dict := list (string * json).

(** Truth value of a dict in a condition: the empty dict is false. *)
Definition dict_truthy (d : dict) : bool :=
  match d with
  | [] => false
  | _ :: _ => true
  end.

(** Truth value of a [str] in a condition. *)
Definition str_truthy (s : string) : bool :=
  match s with
  | EmptyString => false
  | String _ _ => true
  end.

(** Instants of [datetime.now()]. *)
Definition datetime := Z.

(** [@dataclass ClientInfo]. *)
Record ClientInfo := mkClientInfo {
  user_id : string;
  raw_data : string;
  is_complete : bool;
  message_count : Z;
  created_at : datetime;
  final_data : option dict
}.

(** [@dataclass BotResponse]. *)
Record BotResponse := mkBotResponse {
  message : string;
  is_completed : bool;
  extracted_data : option dict
}.

(** An entry of the conversation buffer, [{"role": ..., "content": ...}]. *)
Record Turn := mkTurn {
  role : string;
  content : string
}.

(** [self.stats] (the start time is not needed). *)
Record Stats := mkStats {
  total_clients : Z;
  completed_clients : Z;
  total_messages : Z
}.

(** Registered observers are known by name. *)
Definition handler := string.

(** The fields of a [RentalBotCore] instance. *)
Record Core := mkCore {
  clients : gmap string ClientInfo;
  conversation_history : gmap string (list Turn);
  completion_handlers : list handler;
  message_handlers : list handler;
  error_handlers : list handler;
  stats : Stats;
  _initialized : bool
}.

(** A row of table [clients]; [user_id] is the primary key and so the key of
    the map. *)
Record ClientRow := mkClientRow {
  row_raw_data : string;
  row_final_data : option string;
  row_is_complete : bool;
  row_message_count : Z;
  row_created_at : datetime;
  row_updated_at : datetime
}.

(** A row of table [messages], in insertion order. *)
Record MessageRow := mkMessageRow {
  msg_user_id : string;
  msg_timestamp : datetime;
  msg_sender : string;
  msg_content : string
}.

Record Database := mkDatabase {
  db_clients : gmap string ClientRow;
  db_messages : list MessageRow
}.

(** The engine together with the database file it is connected to. *)
Record World := mkWorld {
  core : Core;
  db : Database
}.

(** What a Python call can raise here. *)
Inductive exn :=
| DatabaseError
| KeyError.

(** How a call ends. *)
Inductive outcome (A : Type) :=
| Returned (a : A)
| Raised (e : exn).
Arguments Returned {A} a.
Arguments Raised {A} e.

(** What the engine does to its collaborators, in order. *)
Inductive Event :=
| EvCompletionCall (messages : list Turn)
| EvExtractionCall (prompt : string)
| EvMessageHandler (h : handler) (uid msg : string) (response : BotResponse)
| EvCompletionHandler (h : handler) (client : ClientInfo)
| EvErrorHandler (h : handler) (uid msg : string) (error : exn).

(** The three queries of [_load_existing_clients]; the assignment of a
    counter follows each. *)
Inductive LoadQuery :=
| CountClients
| CountCompleted
| CountMessages.

(** What the collaborators do during one operation of the engine.  When the
    block of [_load_existing_clients] fails, [load_existing_clients_fails_at]
    is the query at which it does (a connection that cannot be opened counts
    as a failure at the first one). *)
Record Outside := mkOutsideAt {
  now : datetime;
  init_database_fails : bool;
  load_existing_clients_fails : bool;
  load_existing_clients_fails_at : LoadQuery;
  select_client_fails : bool;
  save_user_message_fails : bool;
  gpt_reply : option string;
  gpt_extraction : option string;
  save_bot_message_fails : bool;
  save_client_fails : bool
}.

(** An outside whose [_load_existing_clients], if it fails, fails at once. *)
Definition mkOutside (now : datetime) (init_database_fails load_existing_clients_fails
    select_client_fails save_user_message_fails : bool) (gpt_reply gpt_extraction : option string)
    (save_bot_message_fails save_client_fails : bool) : Outside :=
  mkOutsideAt now init_database_fails load_existing_clients_fails CountClients
    select_client_fails save_user_message_fails gpt_reply gpt_extraction
    save_bot_message_fails save_client_fails.

(** ** A monad for state, exceptions and the trace of events *)

Definition M (A : Type) : Type := World -> outcome A * World * list Event.

Definition ret {A} (a : A) : M A := fun w => (Returned a, w, []).

Definition raise {A} (e : exn) : M A := fun w => (Raised e, w, []).

Definition bind {A B} (c : M A) (k : A -> M B) : M B :=
  fun w =>
    match c w with
    | (Returned a, w1, ev1) =>
        match k a w1 with
        | (r, w2, ev2) => (r, w2, ev1 ++ ev2)
        end
    | (Raised e, w1, ev1) => (Raised e, w1, ev1)
    end.

(** [try: c  except Exception as e: h e]. *)
Definition try_except {A} (c : M A) (h : exn -> M A) : M A :=
  fun w =>
    match c w with
    | (Returned a, w1, ev1) => (Returned a, w1, ev1)
    | (Raised e, w1, ev1) =>
        match h e w1 with
        | (r, w2, ev2) => (r, w2, ev1 ++ ev2)
        end
    end.

Definition emit (evs : list Event) : M unit := fun w => (Returned tt, w, evs).

Definition get_core : M Core := fun w => (Returned (core w), w, []).

Definition modify_core (f : Core -> Core) : M unit :=
  fun w => (Returned tt, mkWorld (f (core w)) (db w), []).

Definition get_db : M Database := fun w => (Returned (db w), w, []).

Definition modify_db (f : Database -> Database) : M unit :=
  fun w => (Returned tt, mkWorld (core w) (f (db w)), []).

Notation "'let*' x ':=' c 'in' k" := (bind c (fun x => k))
  (at level 10, x pattern, c at level 100, k at level 200).

(** Field updates. *)
Definition set_clients (f : gmap string ClientInfo -> gmap string ClientInfo) (c : Core) : Core :=
  mkCore (f (clients c)) (conversation_history c) (completion_handlers c)
    (message_handlers c) (error_handlers c) (stats c) (_initialized c).

Definition set_conversation_history
    (f : gmap string (list Turn) -> gmap string (list Turn)) (c : Core) : Core :=
  mkCore (clients c) (f (conversation_history c)) (completion_handlers c)
    (message_handlers c) (error_handlers c) (stats c) (_initialized c).

Definition set_stats (f : Stats -> Stats) (c : Core) : Core :=
  mkCore (clients c) (conversation_history c) (completion_handlers c)
    (message_handlers c) (error_handlers c) (f (stats c)) (_initialized c).

Definition set_initialized (b : bool) (c : Core) : Core :=
  mkCore (clients c) (conversation_history c) (completion_handlers c)
    (message_handlers c) (error_handlers c) (stats c) b.

Definition with_message_count (n : Z) (c : ClientInfo) : ClientInfo :=
  mkClientInfo (user_id c) (raw_data c) (is_complete c) n (created_at c) (final_data c).

Definition with_raw_data (s : string) (c : ClientInfo) : ClientInfo :=
  mkClientInfo (user_id c) s (is_complete c) (message_count c) (created_at c) (final_data c).

Definition with_is_complete (b : bool) (c : ClientInfo) : ClientInfo :=
  mkClientInfo (user_id c) (raw_data c) b (message_count c) (created_at c) (final_data c).

Definition with_final_data (d : option dict) (c : ClientInfo) : ClientInfo :=
  mkClientInfo (user_id c) (raw_data c) (is_complete c) (message_count c) (created_at c) d.

(** ** The engine *)

(** What [config.py] and the [json] module supply.  [config.py] is not part of
    the sources at hand, so its constants are parameters of the development.
    [json_loads] is [json.loads] on a text that begins with an opening brace:
    it yields a dict, or [None] when it raises.  [format_extraction_prompt] is
    [BotPrompts.EXTRACTION_PROMPT_TEMPLATE.format(dialog_history=...)], [None]
    when the template makes [format] raise.  [ClientInfo_created_at_default]
    is the value [datetime.now()] had when the class body of [ClientInfo] was
    executed: a dataclass default is evaluated once. *)
Record Settings := mkSettings {
  max_conversation_history : Z;
  COMPLETION_MARKER : string;
  TECHNICAL_ERROR : string;
  OPENAI_ERROR : string;
  SYSTEM_PROMPT : string;
  FIRST_MESSAGE_INSTRUCTION : string;
  format_extraction_prompt : string -> option string;
  json_loads : string -> option dict;
  json_dumps : dict -> string;
  ClientInfo_created_at_default : datetime
}.

(** [lst[a:]]. *)
Definition py_slice_from {A} (a : Z) (l : list A) : list A :=
  let len := Z.of_nat (length l) in
  let start := if a <? 0 then Z.max (len + a) 0 else Z.min a len in
  drop (Z.to_nat start) l.

Section Engine.

Variable cfg : Settings.

(** [ClientInfo(user_id=user_id)]. *)
Definition new_ClientInfo (uid : string) : ClientInfo :=
  mkClientInfo uid "" false 0 (ClientInfo_created_at_default cfg) None.

(** [RentalBotCore.__init__], with the observers registered afterwards. *)
Definition new_core (on_completion on_message on_error : list handler) : Core :=
  mkCore ∅ ∅ on_completion on_message on_error (mkStats 0 0 0) false.

(** [CREATE TABLE IF NOT EXISTS] keeps the rows that are there. *)
Definition _init_database (o : Outside) : M unit :=
  if init_database_fails o then raise DatabaseError else ret tt.

Definition count_completed (rows : gmap string ClientRow) : Z :=
  Z.of_nat (size (filter (fun kv => row_is_complete (snd kv) = true) rows)).

(** One query of [_load_existing_clients]: it raises when it is the one that
    fails. *)
Definition load_query (o : Outside) (q : LoadQuery) : M unit :=
  if load_existing_clients_fails o
  then
    match load_existing_clients_fails_at o, q with
    | CountClients, CountClients
    | CountCompleted, CountCompleted
    | CountMessages, CountMessages => raise DatabaseError
    | _, _ => ret tt
    end
  else ret tt.

Definition _load_existing_clients (o : Outside) : M unit :=
  let* d := get_db in
  let* _ := load_query o CountClients in
  let* _ := modify_core (set_stats (fun st =>
    mkStats (Z.of_nat (size (db_clients d))) (completed_clients st) (total_messages st))) in
  let* _ := load_query o CountCompleted in
  let* _ := modify_core (set_stats (fun st =>
    mkStats (total_clients st) (count_completed (db_clients d)) (total_messages st))) in
  let* _ := load_query o CountMessages in
  modify_core (set_stats (fun st =>
    mkStats (total_clients st) (completed_clients st) (Z.of_nat (length (db_messages d))))).

Definition _ensure_initialized (o : Outside) : M unit :=
  let* c := get_core in
  if _initialized c then ret tt
  else
    let* _ := _init_database o in
    let* _ := _load_existing_clients o in
    modify_core (set_initialized true).

(** The [ClientInfo] built from a row; [created_at] is not read back. *)
Definition client_of_row (uid : string) (row : ClientRow) : ClientInfo :=
  let final_data :=
    match row_final_data row with
    | Some text => if str_truthy text then json_loads cfg text else None
    | None => None
    end in
  mkClientInfo uid (row_raw_data row) (row_is_complete row)
    (row_message_count row) (ClientInfo_created_at_default cfg) final_data.

Definition _get_or_create_client (o : Outside) (uid : string) : M ClientInfo :=
  let* c := get_core in
  match clients c !! uid with
  | Some client => ret client
  | None =>
      if select_client_fails o then raise DatabaseError
      else
        let* d := get_db in
        let* client :=
          match db_clients d !! uid with
          | Some row => ret (client_of_row uid row)
          | None =>
              let* _ := modify_core (set_stats (fun st =>
                mkStats (total_clients st + 1) (completed_clients st) (total_messages st))) in
              ret (new_ClientInfo uid)
          end in
        let* _ := modify_core (set_clients (insert uid client)) in
        ret client
  end.

Definition get_client_info (o : Outside) (uid : string) : M ClientInfo :=
  _get_or_create_client o uid.

(** A [ClientInfo] is a mutable object shared with [self.clients]: an
    assignment to a field of the [client] of [chat] is at once visible in the
    cache entry of [uid], also when an exception ends the turn later. *)
Definition mutate_client (uid : string) (client : ClientInfo) : M unit :=
  modify_core (set_clients (insert uid client)).

(** The buffer map after [_update_conversation_history]: the entry of [uid]
    is created when missing, the turn appended, and a buffer longer than the
    configured maximum cut to [buffer[-max:]]. *)
Definition push_turn (uid role content : string)
    (h : gmap string (list Turn)) : gmap string (list Turn) :=
  let l := default [] (h !! uid) ++ [mkTurn role content] in
  let l :=
    if Z.of_nat (length l) >? max_conversation_history cfg
    then py_slice_from (- max_conversation_history cfg) l
    else l in
  <[uid := l]> h.

Definition _update_conversation_history (uid role content : string) : M unit :=
  modify_core (set_conversation_history (push_turn uid role content)).

Definition client_row (t : datetime) (client : ClientInfo) : ClientRow :=
  let final_data_json :=
    match final_data client with
    | Some d => if dict_truthy d then Some (json_dumps cfg d) else None
    | None => None
    end in
  mkClientRow (raw_data client) final_data_json (is_complete client)
    (message_count client) (created_at client) t.

(** [INSERT OR REPLACE INTO clients]. *)
Definition _save_client (fails : bool) (t : datetime) (client : ClientInfo) : M unit :=
  if fails then raise DatabaseError
  else
    modify_db (fun d =>
      mkDatabase (<[user_id client := client_row t client]> (db_clients d)) (db_messages d)).

(** [INSERT INTO messages]. *)
Definition _save_message (fails : bool) (t : datetime) (uid sender content : string) : M unit :=
  if fails then raise DatabaseError
  else
    modify_db (fun d =>
      mkDatabase (db_clients d) (db_messages d ++ [mkMessageRow uid t sender content])).

(** The text [_generate_gpt_response] returns: the stripped content of the
    answer, or [ErrorMessages.OPENAI_ERROR] when anything in its [try] block
    raised. *)
Definition reply_text (o : Outside) : string :=
  match gpt_reply o with
  | Some text => py_strip text
  | None => OPENAI_ERROR cfg
  end.

(** The request is built from the buffer; the call is made once. *)
Definition _generate_gpt_response (o : Outside) (client : ClientInfo) : M string :=
  let* c := get_core in
  let conversation := default [] (conversation_history c !! user_id client) in
  let messages :=
    [mkTurn "system" (SYSTEM_PROMPT cfg)] ++ conversation ++
    (if message_count client =? 1
     then [mkTurn "system" (FIRST_MESSAGE_INSTRUCTION cfg)] else []) in
  let* _ := emit [EvCompletionCall messages] in
  ret (reply_text o).

(** What the extraction makes of the text of the provider's answer. *)
Definition parse_extraction (text : string) : dict :=
  match re_search_braces (py_strip text) with
  | Some span =>
      match json_loads cfg span with
      | Some extracted => extracted
      | None => []
      end
  | None => []
  end.

Definition _extract_final_data (o : Outside) (client : ClientInfo) : M dict :=
  match format_extraction_prompt cfg (raw_data client) with
  | None => ret []
  | Some prompt =>
      let* _ := emit [EvExtractionCall prompt] in
      ret (match gpt_extraction o with
           | Some text => parse_extraction text
           | None => []
           end)
  end.

Definition _call_handlers (uid msg : string) (response : BotResponse)
    (client : ClientInfo) (was_completed : bool) : M unit :=
  let* c := get_core in
  let* _ := emit (map (fun h => EvMessageHandler h uid msg response) (message_handlers c)) in
  if is_completed response && negb was_completed
  then emit (map (fun h => EvCompletionHandler h client) (completion_handlers c))
  else ret tt.

Definition _call_error_handlers (uid msg : string) (error : exn) : M unit :=
  let* c := get_core in
  emit (map (fun h => EvErrorHandler h uid msg error) (error_handlers c)).

Definition bump_total_messages (st : Stats) : Stats :=
  mkStats (total_clients st) (completed_clients st) (total_messages st + 1).

Definition bump_completed_clients (st : Stats) : Stats :=
  mkStats (total_clients st) (completed_clients st + 1) (total_messages st).

(** The [try] block of [chat], in its three parts.

    First part: the record is resolved, the message counted, logged and put
    into the transcript and the buffer.  Yields the record and
    [was_completed]. *)
Definition receive_message (o : Outside) (uid msg : string) : M (ClientInfo * bool) :=
  let* client := _get_or_create_client o uid in
  let was_completed := is_complete client in
  let client := with_message_count (message_count client + 1) client in
  let* _ := mutate_client uid client in
  let* _ := modify_core (set_stats bump_total_messages) in
  let* _ := _save_message (save_user_message_fails o) (now o) uid "user" msg in
  let client :=
    with_raw_data (raw_data client +:+ String "010" "Пользователь: " +:+ msg) client in
  let* _ := mutate_client uid client in
  let* _ := _update_conversation_history uid "user" msg in
  ret (client, was_completed).

(** Second part: the reply is generated and searched for the marker; with the
    marker the record is completed and the data extracted.  Yields the reply,
    [is_completed] and the record. *)
Definition produce_reply (o : Outside) (uid : string) (client : ClientInfo)
    : M (string * bool * ClientInfo) :=
  let* bot_message := _generate_gpt_response o client in
  let is_completed := py_in (COMPLETION_MARKER cfg) bot_message in
  if is_completed then
    let bot_message := py_strip (py_replace (COMPLETION_MARKER cfg) "" bot_message) in
    let client := with_is_complete true client in
    let* _ := mutate_client uid client in
    let* _ := modify_core (set_stats bump_completed_clients) in
    let* extracted := _extract_final_data o client in
    let client := with_final_data (Some extracted) client in
    let* _ := mutate_client uid client in
    ret (bot_message, is_completed, client)
  else ret (bot_message, is_completed, client).

(** Third part: the reply is put into the transcript, the buffer and the
    message log, the record is saved and the observers are told. *)
Definition record_reply (o : Outside) (uid msg bot_message : string)
    (is_completed : bool) (client : ClientInfo) (was_completed : bool) : M BotResponse :=
  let client :=
    with_raw_data (raw_data client +:+ String "010" "Светлана: " +:+ bot_message) client in
  let* _ := mutate_client uid client in
  let* _ := _update_conversation_history uid "assistant" bot_message in
  let* _ := _save_message (save_bot_message_fails o) (now o) uid "bot" bot_message in
  let* _ := _save_client (save_client_fails o) (now o) client in
  let response :=
    mkBotResponse bot_message is_completed
      (if is_completed then final_data client else None) in
  let* _ := _call_handlers uid msg response client was_completed in
  ret response.

Definition chat_turn (o : Outside) (uid msg : string) : M BotResponse :=
  let* (client, was_completed) := receive_message o uid msg in
  let* (bot_message, is_completed, client) := produce_reply o uid client in
  record_reply o uid msg bot_message is_completed client was_completed.

Definition chat (o : Outside) (uid msg : string) : M BotResponse :=
  let* _ := _ensure_initialized o in
  try_except (chat_turn o uid msg)
    (fun e =>
       let* _ := _call_error_handlers uid msg e in
       ret (mkBotResponse (TECHNICAL_ERROR cfg) false None)).

Definition reset_client (o : Outside) (uid : string) : M bool :=
  try_except
    (let* _ := _ensure_initialized o in
     let* _ := modify_core (set_clients (insert uid (new_ClientInfo uid))) in
     let* c := get_core in
     let* _ :=
       match clients c !! uid with
       | Some client => _save_client (save_client_fails o) (now o) client
       | None => raise KeyError
       end in
     let* _ := modify_core (set_conversation_history (delete uid)) in
     ret true)
    (fun _ => ret false).

End Engine.

(** ** Sequences of operations *)

(** The operations a channel adapter performs on the engine; [CallRestart] is
    a restart of the process: a new [RentalBotCore] on the same database
    file, with the same observers registered. *)
Inductive Call :=
| CallChat (uid msg : string)
| CallReset (uid : string)
| CallGetClient (uid : string)
| CallRestart.

Definition exec (cfg : Settings) (o : Outside) (c : Call) (w : World) : World * list Event :=
  match c with
  | CallChat uid msg => let '(_, w', evs) := chat cfg o uid msg w in (w', evs)
  | CallReset uid => let '(_, w', evs) := reset_client cfg o uid w in (w', evs)
  | CallGetClient uid => let '(_, w', evs) := get_client_info cfg o uid w in (w', evs)
  | CallRestart =>
      (mkWorld
         (new_core (completion_handlers (core w)) (message_handlers (core w))
            (error_handlers (core w)))
         (db w), [])
  end.

Fixpoint run (cfg : Settings) (calls : list (Outside * Call)) (w : World) : World :=
  match calls with
  | [] => w
  | (o, c) :: rest => run cfg rest (fst (exec cfg o c w))
  end.

(** A new engine on an empty database. *)
Definition boot (on_completion on_message on_error : list handler) : World :=
  mkWorld (new_core on_completion on_message on_error) (mkDatabase ∅ []).


Definition is_reset_of (uid : string) (c : Call) : bool :=
  match c with
  | CallReset uid' => bool_decide (uid' = uid)
  | _ => false
  end.

Definition is_chat_of (uid : string) (c : Call) : bool :=
  match c with
  | CallChat uid' _ => bool_decide (uid' = uid)
  | _ => false
  end.

Definition is_completion_event (e : Event) : bool :=
  match e with
  | EvCompletionHandler _ _ => true
  | _ => false
  end.

Definition is_error_event (e : Event) : bool :=
  match e with
  | EvErrorHandler _ _ _ _ => true
  | _ => false
  end.

Definition is_extraction_call (e : Event) : bool :=
  match e with
  | EvExtractionCall _ => true
  | _ => false
  end.


(** The record the first step of a turn works on when the [SELECT] does not
    fail: the cached one, else the stored one, else a new one. *)
Definition resolve (cfg : Settings) (uid : string) (w : World) : ClientInfo :=
  match clients (core w) !! uid with
  | Some client => client
  | None =>
      match db_clients (db w) !! uid with
      | Some row => client_of_row cfg uid row
      | None => new_ClientInfo cfg uid
      end
  end.

(** ** Vocabulary of the statements *)

(** The parts of what a call yields. *)
Definition outcome_of {A} (res : outcome A * World * list Event) : outcome A := fst (fst res).
Definition world_after {A} (res : outcome A * World * list Event) : World := snd (fst res).
Definition events_of {A} (res : outcome A * World * list Event) : list Event := snd res.

(** [_ensure_initialized] gets through: the engine is initialised already, or
    neither of its two database blocks fails. *)
Definition init_ok (o : Outside) (w : World) : bool :=
  _initialized (core w)
  || negb (init_database_fails o) && negb (load_existing_clients_fails o).

(** The counters after an initialisation that failed: the queries of
    [_load_existing_clients] that came before the failing one have assigned
    theirs. *)
Definition failed_load_stats (o : Outside) (w : World) : Stats :=
  if init_database_fails o then stats (core w)
  else
    match load_existing_clients_fails_at o with
    | CountClients => stats (core w)
    | CountCompleted =>
        mkStats (Z.of_nat (size (db_clients (db w))))
          (completed_clients (stats (core w))) (total_messages (stats (core w)))
    | CountMessages =>
        mkStats (Z.of_nat (size (db_clients (db w))))
          (count_completed (db_clients (db w))) (total_messages (stats (core w)))
    end.

(** The engine after an initialisation that failed: nothing but the counters
    has changed. *)
Definition after_failed_init (o : Outside) (w : World) : World :=
  mkWorld (set_stats (fun _ => failed_load_stats o w) (core w)) (db w).

(** The lookup of the record, the first step of a turn, fails. *)
Definition lookup_fault (o : Outside) (uid : string) (w : World) : bool :=
  match clients (core w) !! uid with
  | Some _ => false
  | None => select_client_fails o
  end.

(** One of the database blocks the turn runs into fails. *)
Definition turn_store_fault (o : Outside) (uid : string) (w : World) : bool :=
  match clients (core w) !! uid with
  | Some _ => false
  | None => select_client_fails o
  end
  || save_user_message_fails o || save_bot_message_fails o || save_client_fails o.

Section Scenario.

Variable cfg : Settings.

(** The record once the inbound message is counted and in the transcript. *)
Definition received_record (c0 : ClientInfo) (msg : string) : ClientInfo :=
  with_raw_data (raw_data c0 +:+ String "010" "Пользователь: " +:+ msg)
    (with_message_count (message_count c0 + 1) c0).

(** The reply carries the completion marker. *)
Definition marker_seen (o : Outside) : bool :=
  py_in (COMPLETION_MARKER cfg) (reply_text cfg o).

(** The reply as the client gets it. *)
Definition bot_text (o : Outside) : string :=
  if marker_seen o
  then py_strip (py_replace (COMPLETION_MARKER cfg) "" (reply_text cfg o))
  else reply_text cfg o.

(** What [_extract_final_data] returns for a transcript. *)
Definition extraction_result (o : Outside) (transcript : string) : dict :=
  match format_extraction_prompt cfg transcript with
  | None => []
  | Some _ =>
      match gpt_extraction o with
      | Some text => parse_extraction cfg text
      | None => []
      end
  end.

Definition extraction_events (transcript : string) : list Event :=
  match format_extraction_prompt cfg transcript with
  | Some prompt => [EvExtractionCall prompt]
  | None => []
  end.

(** The record at the end of a turn in which no database block fails. *)
Definition answered_record (o : Outside) (c0 : ClientInfo) (msg : string) : ClientInfo :=
  let c := received_record c0 msg in
  let c :=
    if marker_seen o
    then with_final_data (Some (extraction_result o (raw_data c))) (with_is_complete true c)
    else c in
  with_raw_data (raw_data c +:+ String "010" "Светлана: " +:+ bot_text o) c.

Definition turn_response (o : Outside) (c0 : ClientInfo) (msg : string) : BotResponse :=
  mkBotResponse (bot_text o) (marker_seen o)
    (if marker_seen o
     then Some (extraction_result o (raw_data (received_record c0 msg)))
     else None).

Definition technical_error_response : BotResponse :=
  mkBotResponse (TECHNICAL_ERROR cfg) false None.

(** The request of the first provider call. *)
Definition request_messages (uid msg : string) (c0 : ClientInfo)
    (h : gmap string (list Turn)) : list Turn :=
  mkTurn "system" (SYSTEM_PROMPT cfg)
  :: default [] (push_turn cfg uid "user" msg h !! user_id c0)
  ++ (if message_count c0 + 1 =? 1
      then [mkTurn "system" (FIRST_MESSAGE_INSTRUCTION cfg)] else []).

Definition turn_events (o : Outside) (uid msg : string) (w : World) : list Event :=
  let c0 := resolve cfg uid w in
  [EvCompletionCall (request_messages uid msg c0 (conversation_history (core w)))]
  ++ (if marker_seen o then extraction_events (raw_data (received_record c0 msg)) else [])
  ++ map (fun h => EvMessageHandler h uid msg (turn_response o c0 msg))
       (message_handlers (core w))
  ++ (if marker_seen o && negb (is_complete c0)
      then map (fun h => EvCompletionHandler h (answered_record o c0 msg))
             (completion_handlers (core w))
      else []).

(** The world at the end of such a turn. *)
Definition turn_outcome (o : Outside) (uid msg : string) (w w' : World) : Prop :=
  clients (core w') = <[uid := answered_record o (resolve cfg uid w) msg]> (clients (core w))
  /\ db_clients (db w') =
     <[user_id (resolve cfg uid w) :=
         client_row cfg (now o) (answered_record o (resolve cfg uid w) msg)]>
       (db_clients (db w))
  /\ db_messages (db w') =
     db_messages (db w)
     ++ [mkMessageRow uid (now o) "user" msg;
         mkMessageRow uid (now o) "bot" (bot_text o)]
  /\ conversation_history (core w') =
     push_turn cfg uid "assistant" (bot_text o)
       (push_turn cfg uid "user" msg (conversation_history (core w))).

(** The turns a call pushes onto the buffer of [uid]. *)
Definition push_turns (uid : string) (turns : list Turn)
    (h : gmap string (list Turn)) : gmap string (list Turn) :=
  fold_left (fun h t => push_turn cfg uid (role t) (content t) h) turns h.

(** What a [chat] that got as far as the record of [uid] has done: [c0] is
    the record it found, [c'] the one it leaves in the cache. *)
Record turn_touch (o : Outside) (uid : string) (c0 c' : ClientInfo)
    (w w' : World) (r : outcome BotResponse) (evs : list Event) : Prop := {
  touch_clients : clients (core w') = <[uid := c']> (clients (core w));
  touch_user_id : user_id c' = user_id c0;
  touch_completion :
    (is_complete c' = is_complete c0 /\ final_data c' = final_data c0)
    \/ (is_complete c' = true /\ is_Some (final_data c'));
  touch_rows :
    db_clients (db w') = db_clients (db w)
    \/ db_clients (db w') =
       <[user_id c' := client_row cfg (now o) c']> (db_clients (db w));
  touch_fired :
    existsb is_completion_event evs = true ->
    is_complete c0 = false /\ is_complete c' = true
    /\ db_clients (db w') =
       <[user_id c' := client_row cfg (now o) c']> (db_clients (db w));
  touch_history :
    exists turns,
      conversation_history (core w') =
      push_turns uid turns (conversation_history (core w));
  touch_response :
    forall resp, r = Returned resp -> is_completed resp = true ->
    is_complete c' = true /\ final_data c' = extracted_data resp
    /\ is_Some (extracted_data resp);
  touch_quiet :
    marker_seen o = false ->
    is_complete c' = is_complete c0 /\ final_data c' = final_data c0
    /\ existsb is_extraction_call evs = false;
  touch_error_handlers : error_handlers (core w') = error_handlers (core w)
}.

End Scenario.

(** What a call that did not get as far as the record leaves behind. *)
Definition untouched (w w' : World) (r : outcome BotResponse) (evs : list Event) : Prop :=
  clients (core w') = clients (core w)
  /\ conversation_history (core w') = conversation_history (core w)
  /\ db w' = db w
  /\ error_handlers (core w') = error_handlers (core w)
  /\ existsb is_completion_event evs = false
  /\ existsb is_extraction_call evs = false
  /\ (forall resp, r = Returned resp -> is_completed resp = false).

(** ** Invariants of the reachable worlds *)

(** A cached record sits under its own identifier. *)
Definition cache_keys_ok (w : World) : Prop :=
  forall k c, clients (core w) !! k = Some c -> user_id c = k.

(** The record of [uid] is stored as complete, and complete in the cache if it
    is there. *)
Definition settled (uid : string) (w : World) : Prop :=
  (exists row, db_clients (db w) !! uid = Some row /\ row_is_complete row = true)
  /\ (forall c, clients (core w) !! uid = Some c -> is_complete c = true).


Definition no_reset_of (uid : string) (calls : list (Outside * Call)) : bool :=
  forallb (fun oc => negb (is_reset_of uid (snd oc))) calls.






(** The last [n] elements of a list. *)
Definition last_n {A} (n : nat) (l : list A) : list A := drop (length l - n) l.

(** Every buffer respects the configured maximum. *)
Definition bounded (cfg : Settings) (w : World) : Prop :=
  forall k l, conversation_history (core w) !! k = Some l ->
              Z.of_nat (length l) <= max_conversation_history cfg.

(** The two characters the extraction looks for. *)
Definition open_brace : ascii := "{".
Definition close_brace : ascii := "}".

Definition not_brace (a : ascii) : Prop := a <> open_brace /\ a <> close_brace.

(** [text] is [pre], then the span from its first opening brace to its last
    closing brace, then [post]. *)
Definition spans (text : string) (pre body post : list ascii) : Prop :=
  list_ascii_of_string text = pre ++ (open_brace :: (body ++ (close_brace :: post)))
  /\ (open_brace ∉ pre) /\ (close_brace ∉ post).

Definition span_text (body : list ascii) : string :=
  string_of_list_ascii (open_brace :: (body ++ [close_brace])).

(** ** The statements of the specification that the code does not meet,
    as they are written *)

(** A failed provider call ends the turn on the error path: the error
    observers are told and no assistant row reaches the message log. *)
Definition provider_failure_is_error_path (cfg : Settings) : Prop :=
  forall o uid msg w,
    init_ok o w = true -> turn_store_fault o uid w = false -> gpt_reply o = None ->
    let res := chat cfg o uid msg w in
    (forall h, In h (error_handlers (core w)) ->
               exists e, In (EvErrorHandler h uid msg e) (events_of res))
    /\ (forall row, In row (db_messages (db (world_after res))) ->
                    msg_sender row = "bot" -> In row (db_messages (db w))).




(** A failing store write raises out of [chat] and out of [reset_client]. *)
Definition store_failure_propagates (cfg : Settings) : Prop :=
  forall o uid msg w,
    init_ok o w = true -> save_client_fails o = true ->
    (exists e, outcome_of (chat cfg o uid msg w) = Raised e)
    /\ (exists e, outcome_of (reset_client cfg o uid w) = Raised e).

(** No buffer is ever longer than the configured maximum. *)
Definition buffer_never_exceeds_maximum (cfg : Settings) : Prop :=
  forall hc hm he calls, bounded cfg (run cfg calls (boot hc hm he)).

(** [chat] returns a response whatever fails. *)
Definition chat_never_raises (cfg : Settings) : Prop :=
  forall o uid msg w, exists resp, outcome_of (chat cfg o uid msg w) = Returned resp.

(** A turn on which the record becomes complete reports completion, with the
    data parsed from the extraction response. *)
Definition completing_turn_reports_extraction (cfg : Settings) : Prop :=
  forall o uid msg w text prompt,
    init_ok o w = true -> lookup_fault o uid w = false ->
    save_user_message_fails o = false ->
    is_complete (resolve cfg uid w) = false -> marker_seen cfg o = true ->
    format_extraction_prompt cfg (raw_data (received_record (resolve cfg uid w) msg))
    = Some prompt ->
    gpt_extraction o = Some text ->
    exists resp,
      outcome_of (chat cfg o uid msg w) = Returned resp
      /\ is_completed resp = true
      /\ extracted_data resp = Some (parse_extraction cfg text).

(** ** A small configuration to run the engine on *)

Module Sample.

Definition quote : string := String "034" "".

(** The text of a JSON object with one field. *)
Definition phone_object : string := "{" +:+ quote +:+ "phone" +:+ quote +:+ ":1}".

(** A stand-in for [json.loads] that knows the empty object and
    [phone_object]. *)
Definition loads (s : string) : option dict :=
  if String.eqb s "{}" then Some []
  else if String.eqb s phone_object then Some [("phone", JNum 1)]
  else None.

Definition dumps (d : dict) : string :=
  match d with
  | [] => "{}"
  | _ :: _ => phone_object
  end.

Definition settings_with (max : Z) : Settings :=
  mkSettings max "[DONE]" "technical error" "provider error" "persona" "greet first"
    (fun history => Some ("extract from: " +:+ history)) loads dumps 0.

Definition settings : Settings := settings_with 4.

(** Everything outside works; the provider answers as given. *)
Definition calm (t : datetime) (reply extraction : option string) : Outside :=
  mkOutside t false false false false reply extraction false false.

Definition fresh : World := boot ["notify"] ["log"] ["alert"].

(** A dialogue of one turn that the model closes; the extraction answers
    with [phone_object] in prose. *)
Definition closing : Outside :=
  calm 50 (Some "thank you [DONE]") (Some ("here it is: " +:+ phone_object +:+ " bye")).

Definition completed : World := run settings [(closing, CallChat "u" "my phone is 1")] fresh.

End Sample.

(** ** The rest of the engine's interface *)

(** [on_completion], [on_message] and [on_error] append the observer to its
    list and return the engine. *)
Definition on_completion (h : handler) (c : Core) : Core :=
  mkCore (clients c) (conversation_history c) (completion_handlers c ++ [h])
    (message_handlers c) (error_handlers c) (stats c) (_initialized c).

Definition on_message (h : handler) (c : Core) : Core :=
  mkCore (clients c) (conversation_history c) (completion_handlers c)
    (message_handlers c ++ [h]) (error_handlers c) (stats c) (_initialized c).

Definition on_error (h : handler) (c : Core) : Core :=
  mkCore (clients c) (conversation_history c) (completion_handlers c)
    (message_handlers c) (error_handlers c ++ [h]) (stats c) (_initialized c).

(** [BotBuilder]: the three lists of observers it collects.  What it sets in
    the configuration object is read by nothing that is modelled here. *)
Record BotBuilder := mkBotBuilder {
  _completion_handlers : list handler;
  _message_handlers : list handler;
  _error_handlers : list handler
}.

Definition new_BotBuilder : BotBuilder := mkBotBuilder [] [] [].

Definition with_completion_handler (h : handler) (b : BotBuilder) : BotBuilder :=
  mkBotBuilder (_completion_handlers b ++ [h]) (_message_handlers b) (_error_handlers b).

Definition with_message_handler (h : handler) (b : BotBuilder) : BotBuilder :=
  mkBotBuilder (_completion_handlers b) (_message_handlers b ++ [h]) (_error_handlers b).

Definition with_error_handler (h : handler) (b : BotBuilder) : BotBuilder :=
  mkBotBuilder (_completion_handlers b) (_message_handlers b) (_error_handlers b ++ [h]).

(** [BotBuilder.build]: a new engine, then the three registration loops. *)
Definition build (b : BotBuilder) : Core :=
  let bot := new_core [] [] [] in
  let bot := fold_left (fun bot h => on_completion h bot) (_completion_handlers b) bot in
  let bot := fold_left (fun bot h => on_message h bot) (_message_handlers b) bot in
  fold_left (fun bot h => on_error h bot) (_error_handlers b) bot.

(** The steps of a [BotBuilder(...). ... .build()] chain: the three that add
    an observer, and [Configure] for the others ([with_database],
    [with_model], [with_temperature], [with_max_tokens], [enable_logging],
    [enable_stats]), which set a field of the configuration object. *)
Inductive BuilderStep :=
| WithCompletionHandler (h : handler)
| WithMessageHandler (h : handler)
| WithErrorHandler (h : handler)
| Configure.

Definition builder_step (b : BotBuilder) (s : BuilderStep) : BotBuilder :=
  match s with
  | WithCompletionHandler h => with_completion_handler h b
  | WithMessageHandler h => with_message_handler h b
  | WithErrorHandler h => with_error_handler h b
  | Configure => b
  end.

Definition completion_handler_of (s : BuilderStep) : option handler :=
  match s with
  | WithCompletionHandler h => Some h
  | _ => None
  end.

Definition message_handler_of (s : BuilderStep) : option handler :=
  match s with
  | WithMessageHandler h => Some h
  | _ => None
  end.

Definition error_handler_of (s : BuilderStep) : option handler :=
  match s with
  | WithErrorHandler h => Some h
  | _ => None
  end.

(** [get_stats]: the four counters of the dict it returns; the two values
    computed from the start time are left out, as the start time is. *)
Record StatsView := mkStatsView {
  users_count : Z;
  messages_count : Z;
  completions_count : Z;
  active_conversations : Z
}.

Definition get_stats (c : Core) : StatsView :=
  mkStatsView (total_clients (stats c)) (total_messages (stats c))
    (completed_clients (stats c)) (Z.of_nat (size (conversation_history c))).

(** The dict [health_check] returns: with status healthy, the flag and a copy
    of the counters; with status error, the exception.  Uptime, timestamp and
    the echo of the configuration are left out. *)
Inductive Health :=
| Healthy (initialized : bool) (counters : Stats)
| Unhealthy (error : exn).

Definition health_check (o : Outside) : M Health :=
  try_except
    (let* _ := _ensure_initialized o in
     let* c := get_core in
     ret (Healthy (_initialized c) (stats c)))
    (fun e => ret (Unhealthy e)).

Section Interface.

Variable cfg : Settings.

(** The loop of [get_all_clients].  Each lookup of a record that is not cached
    opens a connection of its own; [env] tells what the outside does during
    the lookup of an identifier. *)
Fixpoint get_clients_loop (env : string -> Outside) (ids : list string)
    : M (list ClientInfo) :=
  match ids with
  | [] => ret []
  | uid :: rest =>
      let* client := _get_or_create_client cfg (env uid) uid in
      let* found := get_clients_loop env rest in
      ret (client :: found)
  end.

(** [get_all_clients].  The query has no [ORDER BY]; the rows are taken in
    the order of the map, and no statement below depends on it.  The method
    does not initialise the engine. *)
Definition get_all_clients (select_fails : bool) (env : string -> Outside)
    : M (list ClientInfo) :=
  if select_fails then raise DatabaseError
  else
    let* d := get_db in
    get_clients_loop env (map fst (map_to_list (db_clients d))).

End Interface.

(** ** Vocabulary of the further statements *)

(** The engine has a record of [uid], cached or stored. *)
Definition known (uid : string) (w : World) : bool :=
  match clients (core w) !! uid, db_clients (db w) !! uid with
  | None, None => false
  | _, _ => true
  end.

Definition is_observer_event (e : Event) : bool :=
  match e with
  | EvMessageHandler _ _ _ _ | EvCompletionHandler _ _ | EvErrorHandler _ _ _ _ => true
  | _ => false
  end.

(** The rows of the message log that belong to [uid]. *)
Definition messages_of (uid : string) (log : list MessageRow) : list MessageRow :=
  List.filter (fun row => String.eqb (msg_user_id row) uid) log.

(** No database block fails during the operation. *)
Definition smooth (o : Outside) : bool :=
  negb (init_database_fails o) && negb (load_existing_clients_fails o)
  && negb (select_client_fails o) && negb (save_user_message_fails o)
  && negb (save_bot_message_fails o) && negb (save_client_fails o).

(** A dialogue with one client: the inbound messages, each with what the
    outside does during its turn. *)
Definition dialogue (uid : string) (turns : list (Outside * string)) : list (Outside * Call) :=
  map (fun om => (fst om, CallChat uid (snd om))) turns.

(** The counters after an initialisation that got through. *)
Definition initialised_stats (w : World) : Stats :=
  if _initialized (core w) then stats (core w)
  else mkStats (Z.of_nat (size (db_clients (db w))))
         (count_completed (db_clients (db w)))
         (Z.of_nat (length (db_messages (db w)))).

(** What a reload makes of the extracted data of a record that was saved. *)
Definition reloaded_final_data (cfg : Settings) (c : ClientInfo) : option dict :=
  match final_data c with
  | Some d =>
      if dict_truthy d && str_truthy (json_dumps cfg d)
      then json_loads cfg (json_dumps cfg d)
      else None
  | None => None
  end.

(** Every client with a conversation buffer has a cached record. *)
Definition buffers_cached (w : World) : Prop :=
  forall k, is_Some (conversation_history (core w) !! k) -> is_Some (clients (core w) !! k).

(** The transcript after one more exchange. *)
Definition with_exchange (cfg : Settings) (transcript : string) (om : Outside * string)
    : string :=
  (transcript +:+ String "010" "Пользователь: " +:+ snd om)
  +:+ String "010" "Светлана: " +:+ bot_text cfg (fst om).

(** ** Display of a record *)

(** A [str] is held as its UTF-8 encoding, while [len] and slices count
    characters: a character is a byte that is not a continuation byte,
    together with the continuation bytes that follow it. *)
Module PyText.

Definition is_continuation_byte (a : ascii) : bool :=
  let n := N_of_ascii a in
  ((128 <=? n) && (n <? 192))%N.

Fixpoint char_count (l : list ascii) : nat :=
  match l with
  | [] => O
  | a :: l' => if is_continuation_byte a then char_count l' else S (char_count l')
  end.

(** [len(s)]. *)
Definition py_len (s : string) : Z := Z.of_nat (char_count (list_ascii_of_string s)).

(** The first [n] characters. *)
Fixpoint take_chars (n : nat) (l : list ascii) : list ascii :=
  match l with
  | [] => []
  | a :: l' =>
      if is_continuation_byte a then a :: take_chars n l'
      else
        match n with
        | O => []
        | S n' => a :: take_chars n' l'
        end
  end.

(** [s[:n]]. *)
Definition py_slice_to (n : Z) (s : string) : string :=
  let len := py_len s in
  let stop := if n <? 0 then Z.max (len + n) 0 else Z.min n len in
  string_of_list_ascii (take_chars (Z.to_nat stop) (list_ascii_of_string s)).

(** [str(n)] of an [int]. *)
Definition py_str_of_int (n : Z) : string := NilZero.string_of_int (Z.to_int n).

End PyText.

Import PyText.

(** Truth value of a value of the [json] module in a condition. *)
Definition json_truthy (v : json) : bool :=
  match v with
  | JNull => false
  | JBool b => b
  | JNum n => negb (n =? 0)
  | JStr s => str_truthy s
  | JArr items => match items with [] => false | _ :: _ => true end
  | JObj fields => match fields with [] => false | _ :: _ => true end
  end.

(** [d.get(key)]: the value, or [None] when the key is missing.  The keys of
    a dict are distinct. *)
Fixpoint dict_get (key : string) (d : dict) : json :=
  match d with
  | [] => JNull
  | (k, v) :: d' => if String.eqb k key then v else dict_get key d'
  end.

(** [value or text]. *)
Definition py_or (value : json) (text : string) : json :=
  if json_truthy value then value else JStr text.

(** The three-way display of [has_children] and [has_pets]. *)
Definition tri_state (value : json) : string :=
  if json_truthy value then "✅ есть"
  else
    match value with
    | JNull => "❓ не указано"
    | _ => "❌ нет"
    end.

(** [format_client_data]; [MAX_DIALOG_PREVIEW_LENGTH] is the constant of that
    name in [BotConstants]. *)
Definition format_client_data (MAX_DIALOG_PREVIEW_LENGTH : Z) (client : ClientInfo) : dict :=
  match final_data client with
  | Some ((_ :: _) as final) =>
      [ ("name", py_or (dict_get "name" final) "❌ не указано");
        ("phone", py_or (dict_get "phone" final) "❌ не указан");
        ("residents_info", py_or (dict_get "residents_info" final) "❌ не указано");
        ("children_status", JStr (tri_state (dict_get "has_children" final)));
        ("pets_status", JStr (tri_state (dict_get "has_pets" final)));
        ("rental_period", py_or (dict_get "rental_period" final) "❌ не указан");
        ("move_in_deadline", py_or (dict_get "move_in_deadline" final) "❌ не указана");
        ("message_count", JStr (py_str_of_int (message_count client)));
        ("status", JStr "✅ Завершена") ]
  | _ =>
      [ ("message_count", JStr (py_str_of_int (message_count client)));
        ("status", JStr "В процессе");
        ("dialog_preview",
         JStr (if py_len (raw_data client) >? MAX_DIALOG_PREVIEW_LENGTH
               then py_slice_to MAX_DIALOG_PREVIEW_LENGTH (raw_data client) +:+ "..."
               else raw_data client)) ]
  end.

(** ** Integrations *)

(** A row of table [integrations]. *)
Record IntegrationRow := mkIntegrationRow {
  int_id : Z;
  int_client_id : string;
  int_integration_type : string;
  int_data : string;
  int_status : string;
  int_created_at : datetime
}.

(** Table [integrations]: its rows in the order of their ids, and the entry
    of the table in [sqlite_sequence], the largest id that was ever given.
    [AUTOINCREMENT] gives a new row an id larger than that and than every id
    in the table. *)
Record IntegrationTable := mkIntegrationTable {
  int_rows : list IntegrationRow;
  int_sequence : Z
}.

Definition next_integration_id (t : IntegrationTable) : Z :=
  fold_right Z.max (int_sequence t) (map int_id (int_rows t)) + 1.

(** An element of the list [get_integrations] returns. *)
Record Integration := mkIntegration {
  integration_id : Z;
  integration_client_id : string;
  integration_type : string;
  integration_data : dict;
  integration_status : string;
  integration_created_at : datetime
}.

(** What the integration methods can raise: what the database raises, the
    error of [json.loads], and the error of binding to a parameter of a query
    an [int] that SQLite cannot hold. *)
Inductive integration_error :=
| StoreError (e : exn)
| JSONDecodeError
| OverflowError.

(** The [int]s that fit an [INTEGER] of SQLite, a signed 64-bit number. *)
Definition fits_sqlite_integer (n : Z) : bool :=
  (- 2 ^ 63 <=? n) && (n <=? 2 ^ 63 - 1).

Inductive result (A : Type) :=
| Done (a : A)
| Failed (e : integration_error).
Arguments Done {A} a.
Arguments Failed {A} e.

Section Integrations.

Variable cfg : Settings.

(** [register_integration]; [status] is [None] when the argument is left to
    its default. *)
Definition register_integration (o : Outside) (insert_fails : bool)
    (client_id integration_type : string) (data : dict) (status : option string)
    (w : World) (t : IntegrationTable) : result unit * World * IntegrationTable :=
  match _ensure_initialized o w with
  | (Raised e, w1, _) => (Failed (StoreError e), w1, t)
  | (Returned _, w1, _) =>
      if insert_fails then (Failed (StoreError DatabaseError), w1, t)
      else
        let new_id := next_integration_id t in
        let row :=
          mkIntegrationRow new_id client_id integration_type (json_dumps cfg data)
            (default "pending" status) (now o) in
        (Done tt, w1, mkIntegrationTable (int_rows t ++ [row]) new_id)
  end.

(** The dict built from a row; [None] when [json.loads] raises. *)
Definition integration_of_row (row : IntegrationRow) : option Integration :=
  let data :=
    if str_truthy (int_data row) then json_loads cfg (int_data row) else Some [] in
  match data with
  | Some d =>
      Some (mkIntegration (int_id row) (int_client_id row) (int_integration_type row) d
              (int_status row) (int_created_at row))
  | None => None
  end.

Fixpoint integrations_of_rows (rows : list IntegrationRow) : result (list Integration) :=
  match rows with
  | [] => Done []
  | row :: rest =>
      match integration_of_row row with
      | None => Failed JSONDecodeError
      | Some integration =>
          match integrations_of_rows rest with
          | Done integrations => Done (integration :: integrations)
          | Failed e => Failed e
          end
      end
  end.

(** The rows the two queries of [get_integrations] select. *)
Definition selected (client_id : string) (integration_type : option string)
    (row : IntegrationRow) : bool :=
  String.eqb (int_client_id row) client_id
  && match integration_type with
     | Some ty => if str_truthy ty then String.eqb (int_integration_type row) ty else true
     | None => true
     end.

Definition get_integrations (o : Outside) (select_fails : bool)
    (client_id : string) (integration_type : option string)
    (w : World) (t : IntegrationTable) : result (list Integration) * World * IntegrationTable :=
  match _ensure_initialized o w with
  | (Raised e, w1, _) => (Failed (StoreError e), w1, t)
  | (Returned _, w1, _) =>
      if select_fails then (Failed (StoreError DatabaseError), w1, t)
      else
        (integrations_of_rows (List.filter (selected client_id integration_type) (int_rows t)),
         w1, t)
  end.

End Integrations.

(** The row after [UPDATE integrations SET status = ? WHERE id = ?]. *)
Definition set_status (integration_id : Z) (status : string) (row : IntegrationRow)
    : IntegrationRow :=
  if int_id row =? integration_id
  then mkIntegrationRow (int_id row) (int_client_id row) (int_integration_type row)
         (int_data row) status (int_created_at row)
  else row.

(** [update_integration_status]; [update_fails] when the database fails (the
    connection comes first, so that this failure goes before the one of
    binding the id). *)
Definition update_integration_status (o : Outside) (update_fails : bool)
    (integration_id : Z) (status : string)
    (w : World) (t : IntegrationTable) : result unit * World * IntegrationTable :=
  match _ensure_initialized o w with
  | (Raised e, w1, _) => (Failed (StoreError e), w1, t)
  | (Returned _, w1, _) =>
      if update_fails then (Failed (StoreError DatabaseError), w1, t)
      else if negb (fits_sqlite_integer integration_id) then (Failed OverflowError, w1, t)
      else
        (Done tt, w1,
         mkIntegrationTable (map (set_status integration_id status) (int_rows t))
           (int_sequence t))
  end.

(** The element of the list for a row whose status was updated. *)
Definition with_status (integration_id' : Z) (status : string) (i : Integration) : Integration :=
  if integration_id i =? integration_id'
  then mkIntegration (integration_id i) (integration_client_id i) (integration_type i)
         (integration_data i) status (integration_created_at i)
  else i.

(** The parts of what an integration method yields. *)
Definition result_of {A} (res : result A * World * IntegrationTable) : result A := fst (fst res).
Definition table_after {A} (res : result A * World * IntegrationTable) : IntegrationTable :=
  snd res.
Definition engine_after {A} (res : result A * World * IntegrationTable) : World :=
  snd (fst res).

(** * Proofs *)

(** ** Symbolic execution of the engine *)

Ltac unfold_engine :=
  unfold chat, chat_turn, receive_message, produce_reply, record_reply,
    reset_client, get_client_info, _get_or_create_client,
    _ensure_initialized, _init_database, _load_existing_clients, load_query, _save_message,
    _save_client, _update_conversation_history, _generate_gpt_response,
    _extract_final_data, _call_handlers, _call_error_handlers, mutate_client,
    bind, try_except, ret, raise, emit, get_core, get_db, modify_core, modify_db in *.

Ltac unfold_scenario :=
  unfold turn_outcome, turn_events, request_messages, turn_response, answered_record,
    extraction_events, extraction_result, bot_text, marker_seen, received_record,
    resolve, init_ok, turn_store_fault in *.

Ltac red_engine :=
  cbn beta iota zeta delta
    [core db clients conversation_history completion_handlers message_handlers
     error_handlers stats _initialized db_clients db_messages
     now init_database_fails load_existing_clients_fails load_existing_clients_fails_at
     select_client_fails
     save_user_message_fails gpt_reply gpt_extraction save_bot_message_fails
     save_client_fails
     set_clients set_conversation_history set_stats set_initialized fst snd
     user_id raw_data is_complete message_count created_at final_data
     with_message_count with_raw_data with_is_complete with_final_data
     client_of_row new_ClientInfo
     message is_completed extracted_data app andb negb orb] in *.

Lemma no_completion_in_map {A} (f : A -> Event) (l : list A) :
  (forall a, is_completion_event (f a) = false) ->
  existsb is_completion_event (map f l) = false.
Proof. intros H. induction l as [|a l IH]; simpl; [done|]. by rewrite H, IH. Qed.

Lemma no_extraction_in_map {A} (f : A -> Event) (l : list A) :
  (forall a, is_extraction_call (f a) = false) ->
  existsb is_extraction_call (map f l) = false.
Proof. intros H. induction l as [|a l IH]; simpl; [done|]. by rewrite H, IH. Qed.

Lemma no_error_in_map {A} (f : A -> Event) (l : list A) :
  (forall a, is_error_event (f a) = false) ->
  existsb is_error_event (map f l) = false.
Proof. intros H. induction l as [|a l IH]; simpl; [done|]. by rewrite H, IH. Qed.

Ltac no_such_event :=
  repeat (first [ rewrite existsb_app
                | rewrite no_completion_in_map; [|done]
                | rewrite no_extraction_in_map; [|done]
                | rewrite no_error_in_map; [|done]
                | progress cbn [existsb is_completion_event is_extraction_call
                                is_error_event orb] ]).

(** The equation of a run is down to a result. *)
Ltac finished H :=
  lazymatch type of H with
  | (_, _, _) = _ => idtac
  end.

Ltac close_touch H :=
  finished H;
  simplify_eq; red_engine; right; eexists; split; red_engine;
  [ rewrite ?insert_insert_eq; reflexivity
  | reflexivity
  | first [ left; split; reflexivity
          | right; split; [reflexivity | eexists; reflexivity] ]
  | first [ left; reflexivity | right; reflexivity ]
  | first [ no_such_event; discriminate
          | intros _; split; [first [assumption | reflexivity] | split; reflexivity] ]
  | first [ by exists []
          | by eexists [mkTurn _ _]
          | by eexists [mkTurn _ _; mkTurn _ _] ]
  | let resp := fresh "resp" in
    let Hr := fresh "Hr" in
    intros resp Hr;
    first [ discriminate Hr
          | injection Hr as <-; red_engine;
            first [ intros Hx; discriminate Hx
                  | intros _; split_and!;
                    [reflexivity | reflexivity | eexists; reflexivity] ] ]
  | unfold marker_seen;
    first [ intros Hx; congruence
          | intros _; split_and!; [reflexivity | reflexivity | no_such_event; reflexivity] ]
  | reflexivity ].

Lemma chat_turn_effect cfg o uid msg w r w' evs :
  chat_turn cfg o uid msg w = (r, w', evs) ->
  untouched w w' r evs
  \/ exists c', turn_touch cfg o uid (resolve cfg uid w) c' w w' r evs.
Proof.
  destruct w as [c d], o as [t f1 f2 lq f3 f4 rp e f5 f6].
  unfold resolve, untouched, marker_seen. unfold_engine. red_engine.
  intros H.
  destruct (clients c !! uid) as [c0|] eqn:Hc; red_engine.
  2: destruct f3; red_engine;
       [simplify_eq; left; split_and!; try done; intros resp [= <-]; done|].
  2: destruct (db_clients d !! uid) as [row|] eqn:Hrow; red_engine.
  all: destruct (py_in (COMPLETION_MARKER cfg) (reply_text cfg _)) eqn:Hm; red_engine.
  all: destruct f4; red_engine; try close_touch H.
  all: try destruct (format_extraction_prompt cfg _) as [prompt|] eqn:Hf; red_engine.
  all: destruct f5; red_engine; try close_touch H.
  all: try (destruct f6; red_engine; try close_touch H).
  all: try (destruct (is_complete c0) eqn:Hic); try (destruct (row_is_complete row) eqn:Hic);
    red_engine.
  all: close_touch H.
Qed.

Lemma ensure_initialized_frame o w r w1 ev1 :
  _ensure_initialized o w = (r, w1, ev1) ->
  clients (core w1) = clients (core w)
  /\ conversation_history (core w1) = conversation_history (core w)
  /\ completion_handlers (core w1) = completion_handlers (core w)
  /\ message_handlers (core w1) = message_handlers (core w)
  /\ error_handlers (core w1) = error_handlers (core w)
  /\ db w1 = db w /\ ev1 = []
  /\ match r with
     | Returned _ => init_ok o w = true
     | Raised e => e = DatabaseError /\ init_ok o w = false /\ _initialized (core w1) = false
     end.
Proof.
  destruct w as [c d], o as [t f1 f2 lq f3 f4 rp e f5 f6].
  unfold init_ok. unfold_engine. red_engine. intros H.
  destruct (_initialized c) eqn:Hi; red_engine.
  2: destruct f1; red_engine; [|destruct f2; red_engine; [destruct lq; red_engine|]].
  all: simplify_eq; red_engine; rewrite ?Hi; split_and!; reflexivity.
Qed.

Lemma resolve_frame cfg uid w w1 :
  clients (core w1) = clients (core w) -> db w1 = db w ->
  resolve cfg uid w1 = resolve cfg uid w.
Proof. unfold resolve. by intros -> ->. Qed.

Lemma chat_effect cfg o uid msg w r w' evs :
  chat cfg o uid msg w = (r, w', evs) ->
  untouched w w' r evs
  \/ exists c', turn_touch cfg o uid (resolve cfg uid w) c' w w' r evs.
Proof.
  unfold chat, bind, untouched. intros H.
  destruct (_ensure_initialized o w) as [[[[]|e0] w1] ev1] eqn:Hinit;
    apply ensure_initialized_frame in Hinit as (Hcl & Hh & _ & _ & Heh & Hdb & -> & _).
  2: { simplify_eq. left. split_and!; done. }
  unfold try_except in H.
  destruct (chat_turn cfg o uid msg w1) as [[[resp|e0] w2] ev2] eqn:Hturn;
    apply chat_turn_effect in Hturn; unfold untouched in Hturn.
  - simplify_eq. rewrite (resolve_frame _ _ _ _ Hcl Hdb) in Hturn.
    destruct Hturn as [(?&?&?&?&?&?&?)|[c' [H1 H2 H3 H4 H5 H6 H7 H8 H9]]];
      [left|right; exists c'; split]; rewrite ?Hcl, ?Hh, ?Hdb, ?Heh in *;
      red_engine; try done.
  - unfold _call_error_handlers in H. unfold_engine. red_engine. simplify_eq.
    rewrite (resolve_frame _ _ _ _ Hcl Hdb) in Hturn.
    rewrite app_nil_r.
    assert (Hev : forall hs, existsb is_completion_event
              (ev2 ++ map (fun h => EvErrorHandler h uid msg e0) hs)
            = existsb is_completion_event ev2).
    { intros hs. rewrite existsb_app, no_completion_in_map by done. apply orb_false_r. }
    assert (Hex : forall hs, existsb is_extraction_call
              (ev2 ++ map (fun h => EvErrorHandler h uid msg e0) hs)
            = existsb is_extraction_call ev2).
    { intros hs. rewrite existsb_app, no_extraction_in_map by done. apply orb_false_r. }
    destruct Hturn as [(?&?&?&?&?&?&?)|[c' [H1 H2 H3 H4 H5 H6 H7 H8 H9]]];
      [left; split_and!|right; exists c'; split];
      rewrite ?Hcl, ?Hh, ?Hdb, ?Heh, ?Hev, ?Hex in *;
      red_engine; try done.
    all: intros resp [= <-]; done.
Qed.

Lemma reset_client_effect cfg o uid w r w' evs :
  reset_client cfg o uid w = (r, w', evs) ->
  evs = [] /\ db_messages (db w') = db_messages (db w)
  /\ ((r = Returned false /\ init_ok o w = false
       /\ clients (core w') = clients (core w)
       /\ conversation_history (core w') = conversation_history (core w)
       /\ db w' = db w)
      \/ (r = Returned false /\ init_ok o w = true /\ save_client_fails o = true
          /\ clients (core w') = <[uid := new_ClientInfo cfg uid]> (clients (core w))
          /\ conversation_history (core w') = conversation_history (core w)
          /\ db_clients (db w') = db_clients (db w))
      \/ (r = Returned true /\ init_ok o w = true /\ save_client_fails o = false
          /\ clients (core w') = <[uid := new_ClientInfo cfg uid]> (clients (core w))
          /\ conversation_history (core w') = delete uid (conversation_history (core w))
          /\ db_clients (db w') =
             <[uid := client_row cfg (now o) (new_ClientInfo cfg uid)]> (db_clients (db w)))).
Proof.
  destruct w as [c d], o as [t f1 f2 lq f3 f4 rp e f5 f6].
  unfold init_ok. unfold_engine. red_engine. intros H.
  destruct (_initialized c) eqn:Hi; red_engine.
  2: destruct f1; red_engine; [|destruct f2; red_engine; [destruct lq; red_engine|]].
  all: try rewrite lookup_insert_eq in H; red_engine.
  all: try (destruct f6; red_engine).
  all: simplify_eq; red_engine.
  all: split_and!; try reflexivity.
  all: first [ left; split_and!; first [reflexivity | by rewrite Hi]
             | right; left; split_and!; reflexivity
             | right; right; split_and!; reflexivity ].
Qed.

Lemma get_client_info_effect cfg o uid w r w' evs :
  get_client_info cfg o uid w = (r, w', evs) ->
  evs = [] /\ db w' = db w
  /\ conversation_history (core w') = conversation_history (core w)
  /\ ((r = Raised DatabaseError /\ clients (core w') = clients (core w)
       /\ clients (core w) !! uid = None /\ select_client_fails o = true)
      \/ (r = Returned (resolve cfg uid w)
          /\ clients (core w') = <[uid := resolve cfg uid w]> (clients (core w)))).
Proof.
  destruct w as [c d], o as [t f1 f2 lq f3 f4 rp e f5 f6].
  unfold resolve. unfold_engine. red_engine. intros H.
  destruct (clients c !! uid) as [c0|] eqn:Hc; red_engine.
  2: destruct f3; red_engine;
       [|destruct (db_clients d !! uid) as [row|] eqn:Hrow; red_engine].
  all: simplify_eq; red_engine; split_and!; try reflexivity.
  - right. split; [reflexivity|]. by rewrite insert_id.
  - left. done.
  - right. done.
  - right. done.
Qed.

Lemma exec_effect_cases cfg o c w w' evs :
  exec cfg o c w = (w', evs) ->
  match c with
  | CallChat uid msg =>
      exists r,
        untouched w w' r evs
        \/ exists c', turn_touch cfg o uid (resolve cfg uid w) c' w w' r evs
  | CallReset uid =>
      evs = [] /\ db_messages (db w') = db_messages (db w)
      /\ ((clients (core w') = clients (core w)
           /\ conversation_history (core w') = conversation_history (core w)
           /\ db_clients (db w') = db_clients (db w))
          \/ (clients (core w') = <[uid := new_ClientInfo cfg uid]> (clients (core w))
              /\ conversation_history (core w') = conversation_history (core w)
              /\ db_clients (db w') = db_clients (db w))
          \/ (clients (core w') = <[uid := new_ClientInfo cfg uid]> (clients (core w))
              /\ conversation_history (core w') = delete uid (conversation_history (core w))
              /\ db_clients (db w') =
                 <[uid := client_row cfg (now o) (new_ClientInfo cfg uid)]>
                   (db_clients (db w))))
  | CallGetClient uid =>
      evs = [] /\ db w' = db w
      /\ conversation_history (core w') = conversation_history (core w)
      /\ (clients (core w') = clients (core w)
          \/ clients (core w') = <[uid := resolve cfg uid w]> (clients (core w)))
  | CallRestart =>
      evs = [] /\ db w' = db w /\ clients (core w') = ∅
      /\ conversation_history (core w') = ∅
  end.
Proof.
  destruct c as [uid msg|uid|uid|]; cbn [exec].
  - destruct (chat cfg o uid msg w) as [[r w1] ev1] eqn:H. intros [= <- <-].
    exists r. eapply chat_effect. exact H.
  - destruct (reset_client cfg o uid w) as [[r w1] ev1] eqn:H. intros [= <- <-].
    apply reset_client_effect in H as (? & ? & H).
    split_and!; [done..|].
    destruct H as [(_&_&?&?&->)|[(_&_&_&?&?&?)|(_&_&_&?&?&?)]]; eauto 10.
  - destruct (get_client_info cfg o uid w) as [[r w1] ev1] eqn:H. intros [= <- <-].
    apply get_client_info_effect in H as (? & ? & ? & H).
    split_and!; [done..|]. destruct H as [(_&?&_)|(_&?)]; eauto.
  - intros [= <- <-]. done.
Qed.

(** ** Invariants over sequences of operations *)

Lemma resolve_user_id cfg uid w :
  cache_keys_ok w -> user_id (resolve cfg uid w) = uid.
Proof.
  unfold resolve. intros Hk.
  destruct (clients (core w) !! uid) as [c|] eqn:Hc; [by apply Hk|].
  by destruct (db_clients (db w) !! uid).
Qed.

Lemma keys_insert uid c' (w w' : World) :
  cache_keys_ok w -> user_id c' = uid ->
  clients (core w') = <[uid := c']> (clients (core w)) ->
  cache_keys_ok w'.
Proof.
  intros Hk Hu Hcl k c. rewrite Hcl, lookup_insert.
  case_decide; [intros [= <-]; congruence | apply Hk].
Qed.

Lemma exec_keys cfg o c w :
  cache_keys_ok w -> cache_keys_ok (fst (exec cfg o c w)).
Proof.
  intros Hk. destruct (exec cfg o c w) as [w' evs] eqn:H. cbn [fst].
  apply exec_effect_cases in H. destruct c as [uid msg|uid|uid|].
  - destruct H as (r & [(Hcl&_)|(c' & Ht)]).
    + intros k c. rewrite Hcl. apply Hk.
    + destruct Ht as [Hcl Hu _ _ _ _ _ _ _].
      eapply keys_insert; [done| |done]. by rewrite Hu, resolve_user_id.
  - destruct H as (_ & _ & [(Hcl&_)|[(Hcl&_)|(Hcl&_)]]).
    + intros k c. rewrite Hcl. apply Hk.
    + eapply keys_insert; [done| |done]. done.
    + eapply keys_insert; [done| |done]. done.
  - destruct H as (_ & _ & _ & [Hcl|Hcl]).
    + intros k c. rewrite Hcl. apply Hk.
    + eapply keys_insert; [done| |done]. by apply resolve_user_id.
  - destruct H as (_ & _ & Hcl & _). intros k c. rewrite Hcl, lookup_empty. done.
Qed.

Lemma boot_keys hc hm he : cache_keys_ok (boot hc hm he).
Proof. intros k c. cbn. rewrite lookup_empty. done. Qed.

Lemma run_keys cfg calls w :
  cache_keys_ok w -> cache_keys_ok (run cfg calls w).
Proof.
  revert w. induction calls as [|[o c] calls IH]; intros w Hk; cbn [run]; [done|].
  apply IH. by apply exec_keys.
Qed.

(** *** Completion is final until a reset *)

Lemma settled_resolve cfg uid w :
  settled uid w -> is_complete (resolve cfg uid w) = true.
Proof.
  intros [(row & Hrow & Hc) Hcache]. unfold resolve.
  destruct (clients (core w) !! uid) as [c|] eqn:E; [by apply Hcache|].
  by rewrite Hrow.
Qed.

Lemma settled_frame uid (w w' : World) :
  settled uid w ->
  clients (core w') !! uid = clients (core w) !! uid ->
  db_clients (db w') !! uid = db_clients (db w) !! uid ->
  settled uid w'.
Proof. unfold settled. intros [? ?] -> ->. done. Qed.

Lemma exec_settled cfg o c uid w w' evs :
  cache_keys_ok w -> settled uid w -> is_reset_of uid c = false ->
  exec cfg o c w = (w', evs) ->
  settled uid w'
  /\ (is_chat_of uid c = true -> existsb is_completion_event evs = false).
Proof.
  intros Hk Hs Hnr H. apply exec_effect_cases in H.
  destruct c as [uid' msg|uid'|uid'|]; cbn [is_reset_of is_chat_of] in *.
  - destruct H as (r & [(Hcl&_&Hdb&_&Hev&_)|(c' & Ht)]).
    { split; [|done]. eapply settled_frame; [done|by rewrite Hcl|by rewrite Hdb]. }
    destruct Ht as [Hcl Hu Hcomp Hrows Hfired _ _ _ _].
    rewrite resolve_user_id in Hu by done.
    destruct (decide (uid' = uid)) as [->|Hne].
    + pose proof (settled_resolve cfg uid w Hs) as Hc0.
      assert (Hc' : is_complete c' = true).
      { destruct Hcomp as [[-> _]|[-> _]]; done. }
      split.
      * destruct Hs as [(row & Hrow & Hrc) Hcache]. split.
        -- destruct Hrows as [->| ->]; [eauto|].
           rewrite Hu, lookup_insert_eq. eexists. split; [done|]. done.
        -- intros c. rewrite Hcl, lookup_insert_eq. by intros [= <-].
      * intros _. destruct (existsb is_completion_event evs) eqn:E; [|done].
        destruct (Hfired eq_refl) as (Hf & _). congruence.
    + split; [|by rewrite bool_decide_eq_false_2].
      eapply settled_frame; [done|by rewrite Hcl, lookup_insert_ne|].
      destruct Hrows as [->| ->]; [done|]. by rewrite Hu, lookup_insert_ne.
  - apply bool_decide_eq_false in Hnr. split; [|done].
    destruct H as (_ & _ & [(Hcl&_&Hdb)|[(Hcl&_&Hdb)|(Hcl&_&Hdb)]]);
      (eapply settled_frame; [done|rewrite Hcl|rewrite Hdb]);
      rewrite ?lookup_insert_ne by done; done.
  - split; [|done]. destruct H as (_ & Hdb & _ & [Hcl|Hcl]).
    + eapply settled_frame; [done|by rewrite Hcl|by rewrite Hdb].
    + destruct Hs as [Hrow Hcache]. split; [by rewrite Hdb|].
      intros c. rewrite Hcl, lookup_insert. case_decide as E; [|apply Hcache].
      subst uid'. intros [= <-]. by apply settled_resolve.
  - split; [|done]. destruct H as (_ & Hdb & Hcl & _).
    destruct Hs as [Hrow Hcache]. split; [by rewrite Hdb|].
    intros c. by rewrite Hcl, lookup_empty.
Qed.




(** *** Extracted data and the completion flag *)













(** ** The conversation buffer *)

Lemma py_slice_from_last_n {A} (n : Z) (l : list A) :
  1 <= n -> py_slice_from (- n) l = last_n (Z.to_nat n) l.
Proof.
  intros Hn. unfold py_slice_from, last_n.
  destruct (- n <? 0) eqn:E; [|apply Z.ltb_ge in E; lia].
  f_equal. lia.
Qed.

Lemma last_n_length {A} (n : nat) (l : list A) :
  length (last_n n l) = Nat.min n (length l).
Proof. unfold last_n. rewrite length_drop. lia. Qed.

Lemma last_n_all {A} (n : nat) (l : list A) :
  (length l <= n)%nat -> last_n n l = l.
Proof. unfold last_n. intros H. by replace (length l - n)%nat with O by lia. Qed.

Lemma last_n_app {A} (n : nat) (l1 l2 : list A) :
  last_n n (last_n n l1 ++ l2) = last_n n (l1 ++ l2).
Proof.
  unfold last_n. rewrite !length_app, length_drop.
  destruct (decide (length l1 <= n)%nat) as [Hle|Hgt].
  - replace (length l1 - n)%nat with O by lia. by rewrite Nat.sub_0_r.
  - replace (length l1 - (length l1 - n) + length l2 - n)%nat with (length l2) by lia.
    replace (length l1 + length l2 - n)%nat with ((length l1 - n) + length l2)%nat by lia.
    rewrite <- drop_drop. by rewrite (drop_app_le l1 l2 (length l1 - n)) by lia.
Qed.

Section Buffer.

Variable cfg : Settings.
Hypothesis max_positive : 1 <= max_conversation_history cfg.

Lemma push_turn_lookup uid role content (h : gmap string (list Turn)) :
  push_turn cfg uid role content h !! uid =
  Some (last_n (Z.to_nat (max_conversation_history cfg))
          (default [] (h !! uid) ++ [mkTurn role content])).
Proof.
  unfold push_turn. rewrite lookup_insert_eq. f_equal.
  destruct (_ >? _) eqn:E.
  - by apply py_slice_from_last_n.
  - rewrite last_n_all; [done|]. lia.
Qed.

Lemma push_turn_lookup_ne uid k role content (h : gmap string (list Turn)) :
  k <> uid -> push_turn cfg uid role content h !! k = h !! k.
Proof. intros Hne. unfold push_turn. by rewrite lookup_insert_ne. Qed.

(** Pushing turns keeps the last [max] of all the turns. *)
Lemma push_turns_lookup uid turns (h : gmap string (list Turn)) :
  turns <> [] ->
  push_turns cfg uid turns h !! uid =
  Some (last_n (Z.to_nat (max_conversation_history cfg)) (default [] (h !! uid) ++ turns)).
Proof.
  revert h. induction turns as [|t turns IH]; intros h Hne; [done|].
  unfold push_turns in *. cbn [fold_left].
  destruct turns as [|t' turns].
  - cbn [fold_left]. destruct t as [r c]. by rewrite push_turn_lookup.
  - rewrite IH by done. destruct t as [r c]. cbn [role content].
    rewrite push_turn_lookup.
    change (default [] (Some ?x)) with x.
    by rewrite last_n_app, <- app_assoc.
Qed.

Lemma push_turns_lookup_ne uid k turns (h : gmap string (list Turn)) :
  k <> uid -> push_turns cfg uid turns h !! k = h !! k.
Proof.
  intros Hne. revert h. induction turns as [|t turns IH]; intros h; [done|].
  unfold push_turns in *. cbn [fold_left]. rewrite IH.
  by apply push_turn_lookup_ne.
Qed.

Lemma push_turns_bounded uid turns (w w' : World) :
  bounded cfg w ->
  conversation_history (core w') = push_turns cfg uid turns (conversation_history (core w)) ->
  bounded cfg w'.
Proof.
  intros Hb Hh k l. rewrite Hh. destruct (decide (k = uid)) as [->|Hne].
  - destruct turns as [|t turns]; [apply Hb|].
    rewrite push_turns_lookup by done. intros [= <-].
    rewrite last_n_length. lia.
  - rewrite push_turns_lookup_ne by done. apply Hb.
Qed.

Lemma exec_bounded o c w : bounded cfg w -> bounded cfg (fst (exec cfg o c w)).
Proof.
  intros Hb. destruct (exec cfg o c w) as [w' evs] eqn:H. cbn [fst].
  apply exec_effect_cases in H. destruct c as [uid msg|uid|uid|].
  - destruct H as (r & [(_&Hh&_)|(c' & Ht)]).
    + intros k l. rewrite Hh. apply Hb.
    + destruct Ht as [_ _ _ _ _ [turns Hh] _ _ _]. by eapply push_turns_bounded.
  - destruct H as (_ & _ & [(_&Hh&_)|[(_&Hh&_)|(_&Hh&_)]]); intros k l; rewrite Hh;
      try apply Hb.
    rewrite lookup_delete. case_decide; [done|apply Hb].
  - destruct H as (_ & _ & Hh & _). intros k l. rewrite Hh. apply Hb.
  - destruct H as (_ & _ & _ & Hh). intros k l. by rewrite Hh, lookup_empty.
Qed.

Lemma run_bounded calls w : bounded cfg w -> bounded cfg (run cfg calls w).
Proof.
  revert w. induction calls as [|[o c] calls IH]; intros w Hb; cbn [run]; [done|].
  apply IH. by apply exec_bounded.
Qed.

End Buffer.

(** ** A turn from end to end *)

Section Turns.

Variable cfg : Settings.

Lemma chat_turn_ok o uid msg w :
  turn_store_fault o uid w = false ->
  exists w',
    chat_turn cfg o uid msg w
    = (Returned (turn_response cfg o (resolve cfg uid w) msg), w',
       turn_events cfg o uid msg w)
    /\ turn_outcome cfg o uid msg w w'.
Proof.
  destruct w as [c d], o as [t f1 f2 lq f3 f4 rp e f5 f6].
  unfold_scenario. unfold_engine. red_engine. intros Hfault.
  repeat (apply orb_false_iff in Hfault as [Hfault ?]). subst f4 f5 f6.
  destruct (clients c !! uid) as [c0|] eqn:Hc; red_engine.
  2: subst f3; red_engine; destruct (db_clients d !! uid) as [row|] eqn:Hrow; red_engine.
  all: destruct (py_in (COMPLETION_MARKER cfg) (reply_text cfg _)) eqn:Hm; red_engine.
  all: try destruct (format_extraction_prompt cfg _) as [prompt|] eqn:Hf; red_engine.
  all: try (destruct (is_complete c0) eqn:Hic); try (destruct (row_is_complete row) eqn:Hic);
    red_engine.
  all: eexists; split;
    [ rewrite ?app_nil_r; reflexivity
    | split_and!; red_engine; rewrite ?insert_insert_eq, <- ?app_assoc; reflexivity ].
Qed.

Lemma chat_ok o uid msg w :
  init_ok o w = true -> turn_store_fault o uid w = false ->
  exists w',
    chat cfg o uid msg w
    = (Returned (turn_response cfg o (resolve cfg uid w) msg), w',
       turn_events cfg o uid msg w)
    /\ turn_outcome cfg o uid msg w w'.
Proof.
  intros Hinit Hfault. unfold chat, bind.
  destruct (_ensure_initialized o w) as [[[[]|e0] w1] ev1] eqn:Hi;
    apply ensure_initialized_frame in Hi as (Hcl & Hh & Hch & Hmh & Heh & Hdb & -> & Hr).
  2: { destruct Hr as (_ & Hni & _). congruence. }
  destruct (chat_turn_ok o uid msg w1) as (w' & Hturn & Hout).
  { unfold turn_store_fault in *. by rewrite Hcl. }
  unfold try_except. rewrite Hturn. exists w'. split.
  - unfold turn_events, request_messages. cbn [app].
    by rewrite (resolve_frame _ _ _ _ Hcl Hdb), Hh, Hmh, Hch.
  - unfold turn_outcome in *.
    by rewrite (resolve_frame _ _ _ _ Hcl Hdb), Hcl, Hh, Hdb in Hout.
Qed.

Lemma chat_turn_fault o uid msg w :
  turn_store_fault o uid w = true ->
  exists w' evs,
    chat_turn cfg o uid msg w = (Raised DatabaseError, w', evs)
    /\ existsb is_error_event evs = false.
Proof.
  destruct w as [c d], o as [t f1 f2 lq f3 f4 rp e f5 f6].
  unfold_scenario. unfold_engine. red_engine. intros Hfault.
  destruct (clients c !! uid) as [c0|] eqn:Hc; red_engine.
  2: destruct f3; red_engine; [by eexists _, _|].
  2: destruct (db_clients d !! uid) as [row|] eqn:Hrow; red_engine.
  all: destruct f4; red_engine; [by eexists _, _|].
  all: destruct (py_in (COMPLETION_MARKER cfg) (reply_text cfg _)) eqn:Hm; red_engine.
  all: try destruct (format_extraction_prompt cfg _) as [prompt|] eqn:Hf; red_engine.
  all: destruct f5; red_engine; [by eexists _, _|].
  all: destruct f6; red_engine; [by eexists _, _|].
  all: discriminate Hfault.
Qed.

Lemma chat_fault o uid msg w :
  init_ok o w = true -> turn_store_fault o uid w = true ->
  exists w' evs,
    chat cfg o uid msg w
    = (Returned (technical_error_response cfg), w',
       evs ++ map (fun h => EvErrorHandler h uid msg DatabaseError) (error_handlers (core w)))
    /\ existsb is_error_event evs = false.
Proof.
  intros Hinit Hfault. unfold chat, bind.
  destruct (_ensure_initialized o w) as [[[[]|e0] w1] ev1] eqn:Hi;
    apply ensure_initialized_frame in Hi as (Hcl & Hh & Hch & Hmh & Heh & Hdb & -> & Hr).
  2: { destruct Hr as (_ & Hni & _). congruence. }
  destruct (chat_turn_fault o uid msg w1) as (w' & evs & Hturn & Hev).
  { unfold turn_store_fault in *. by rewrite Hcl. }
  assert (Heh' : error_handlers (core w') = error_handlers (core w)).
  { rewrite <- Heh. pose proof Hturn as Hx. apply chat_turn_effect in Hx.
    destruct Hx as [(_&_&_&?&_)|(c' & Ht)]; [done|]. by destruct Ht. }
  unfold try_except. rewrite Hturn. unfold_engine. red_engine.
  exists w', evs. rewrite Heh', app_nil_r. done.
Qed.

Lemma ensure_initialized_fails o w :
  init_ok o w = false ->
  _ensure_initialized o w = (Raised DatabaseError, after_failed_init o w, []).
Proof.
  destruct w as [c d], o as [t f1 f2 lq f3 f4 rp e f5 f6].
  unfold init_ok, after_failed_init, failed_load_stats. unfold_engine. red_engine.
  destruct (_initialized c) eqn:Hi; red_engine; [done|].
  destruct f1; red_engine; [|destruct f2; red_engine; [destruct lq; red_engine|done]].
  all: intros _; destruct c as [? ? ? ? ? [? ? ?] ?]; cbn in *; by subst.
Qed.

Lemma chat_init_fails o uid msg w :
  init_ok o w = false ->
  chat cfg o uid msg w = (Raised DatabaseError, after_failed_init o w, []).
Proof.
  intros Hinit. unfold chat, bind. by rewrite ensure_initialized_fails.
Qed.

Lemma reset_client_ok o uid w :
  init_ok o w = true -> save_client_fails o = false ->
  exists w',
    reset_client cfg o uid w = (Returned true, w', [])
    /\ clients (core w') = <[uid := new_ClientInfo cfg uid]> (clients (core w))
    /\ conversation_history (core w') = delete uid (conversation_history (core w))
    /\ db_clients (db w') =
       <[uid := client_row cfg (now o) (new_ClientInfo cfg uid)]> (db_clients (db w))
    /\ db_messages (db w') = db_messages (db w).
Proof.
  intros Hinit Hsave.
  destruct (reset_client cfg o uid w) as [[r w'] evs] eqn:H.
  apply reset_client_effect in H as (-> & Hm & H). exists w'.
  destruct H as [(_&?&_)|[(_&_&?&_)|(->&_&_&?&?&?)]]; [congruence..|done].
Qed.

Lemma get_client_info_cached o uid w c :
  clients (core w) !! uid = Some c ->
  get_client_info cfg o uid w = (Returned c, w, []).
Proof.
  intros Hc. unfold get_client_info, _get_or_create_client, bind, get_core, ret.
  cbn. by rewrite Hc.
Qed.

End Turns.

(** ** The brace scan of the extraction *)

Lemma match_dotstar_close_none l :
  match_dotstar_close l = None <-> close_brace ∉ l.
Proof.
  induction l as [|c l IH]; cbn [match_dotstar_close].
  - split; [intros _ H; inversion H|done].
  - destruct (match_dotstar_close l) as [m|] eqn:E.
    + split; [done|]. intros Hn. destruct IH as [_ IH].
      discriminate IH. intros H. apply Hn. by right.
    + destruct (Ascii.eqb c "}") eqn:Ec.
      * split; [done|]. intros Hn. exfalso. apply Hn.
        apply Ascii.eqb_eq in Ec; subst c. left.
      * split; [|done]. intros _ H. apply elem_of_cons in H as [Heq|H].
        -- subst c. by rewrite Ascii.eqb_refl in Ec.
        -- by apply IH.
Qed.

Lemma match_dotstar_close_some l m :
  match_dotstar_close l = Some m <->
  exists body post, l = body ++ (close_brace :: post) /\ m = body ++ [close_brace]
                    /\ close_brace ∉ post.
Proof.
  revert m. induction l as [|c l IH]; intros m; cbn [match_dotstar_close].
  - split; [done|]. intros (body & post & H & _). by destruct body.
  - destruct (match_dotstar_close l) as [m'|] eqn:E.
    + split.
      * intros [= <-]. destruct (proj1 (IH m') eq_refl) as (body & post & -> & -> & Hp).
        by exists (c :: body), post.
      * intros (body & post & H & -> & Hp).
        destruct body as [|b body]; simplify_eq/=.
        -- apply match_dotstar_close_none in Hp. congruence.
        -- f_equal. f_equal.
           assert (Some m' = Some (body ++ [close_brace])) as [= ->]; [|done].
           apply IH. eauto.
    + apply match_dotstar_close_none in E.
      destruct (Ascii.eqb c "}") eqn:Ec.
      * apply Ascii.eqb_eq in Ec; subst c. split.
        -- intros [= <-]. by exists [], l.
        -- intros (body & post & H & -> & Hp).
           destruct body as [|b body]; simplify_eq/=; [done|].
           exfalso. apply E. apply elem_of_app. right. left.
      * split; [done|]. intros (body & post & H & -> & Hp).
        destruct body as [|b body]; simplify_eq/=.
        exfalso. apply E. apply elem_of_app. right. left.
Qed.

Lemma search_braces_some l m :
  search_braces l = Some m <->
  exists pre body post,
    l = pre ++ (open_brace :: (body ++ (close_brace :: post)))
    /\ m = open_brace :: (body ++ [close_brace])
    /\ (open_brace ∉ pre) /\ (close_brace ∉ post).
Proof.
  revert m. induction l as [|c l IH]; intros m; cbn [search_braces].
  - split; [done|]. intros (pre & body & post & H & _). by destruct pre.
  - destruct (Ascii.eqb c "{") eqn:Ec.
    + apply Ascii.eqb_eq in Ec; subst c.
      destruct (match_dotstar_close l) as [m'|] eqn:E.
      * split.
        -- intros [= <-].
           apply match_dotstar_close_some in E as (body & post & -> & -> & Hp).
           exists [], body, post. split_and!; try done. apply not_elem_of_nil.
        -- intros (pre & body' & post' & H & -> & Hpre & Hp').
           destruct pre as [|p pre]; simplify_eq/=.
           ++ assert (E2 : match_dotstar_close (body' ++ close_brace :: post')
                           = Some (body' ++ [close_brace]))
                by (apply match_dotstar_close_some; eauto).
              congruence.
           ++ exfalso. apply Hpre. left.
      * apply match_dotstar_close_none in E. split.
        -- intros Hs. apply IH in Hs as (pre & body & post & -> & _).
           exfalso. apply E. rewrite elem_of_app. right. right. rewrite elem_of_app. right. left.
        -- intros (pre & body & post & H & _).
           exfalso. apply E.
           destruct pre as [|p pre]; simplify_eq/=.
           ++ rewrite elem_of_app. right. left.
           ++ rewrite elem_of_app. right. right. rewrite elem_of_app. right. left.
    + rewrite IH. split.
      * intros (pre & body & post & -> & -> & Hpre & Hp).
        exists (c :: pre), body, post. split_and!; try done.
        intros H. apply elem_of_cons in H as [Heq|H]; [|done].
        subst c. by rewrite Ascii.eqb_refl in Ec.
      * intros (pre & body & post & H & -> & Hpre & Hp).
        destruct pre as [|p pre]; simplify_eq/=.
        exists pre, body, post. split_and!; try done.
        intros Hin. apply Hpre. by right.
Qed.

Lemma search_braces_none l :
  search_braces l = None <->
  ~ exists pre body post, l = pre ++ (open_brace :: (body ++ (close_brace :: post))).
Proof.
  split.
  - intros Hn (pre & body & post & H).
    (* cut at the first opening and the last closing brace *)
    assert (exists m, search_braces l = Some m) as [m Hm]; [|congruence].
    clear Hn. subst l. induction pre as [|p pre IH]; cbn [app search_braces].
    + change (Ascii.eqb open_brace "{") with true. cbn match.
      destruct (match_dotstar_close (body ++ close_brace :: post)) eqn:E; [eauto|].
      apply match_dotstar_close_none in E. exfalso. apply E.
      rewrite elem_of_app. right. left.
    + destruct (Ascii.eqb p "{"); [|done].
      destruct (match_dotstar_close _) eqn:E; [eauto|done].
  - intros Hn. destruct (search_braces l) as [m|] eqn:E; [|done].
    exfalso. apply Hn. apply search_braces_some in E as (pre & body & post & -> & _). eauto.
Qed.

Lemma N_of_open_brace : N_of_ascii open_brace = 123%N.
Proof. reflexivity. Qed.

Lemma N_of_close_brace : N_of_ascii close_brace = 125%N.
Proof. reflexivity. Qed.

Ltac ws_not_brace H :=
  unfold ws1, ws2, ws3 in H; cbv zeta in H;
  repeat first [ rewrite orb_true_iff in H | rewrite andb_true_iff in H
               | rewrite N.eqb_eq in H | rewrite N.leb_le in H ];
  unfold not_brace; repeat split; intros ->;
  rewrite ?N_of_open_brace, ?N_of_close_brace in H; lia.

Lemma ws1_not_brace a : ws1 a = true -> not_brace a.
Proof. intros H. ws_not_brace H. Qed.

Lemma ws2_not_brace a b : ws2 a b = true -> not_brace a /\ not_brace b.
Proof. intros H. ws_not_brace H. Qed.

Lemma ws3_not_brace a b c : ws3 a b c = true -> not_brace a /\ not_brace b /\ not_brace c.
Proof. intros H. ws_not_brace H. Qed.

Lemma lstrip_bytes_split fwd l :
  exists p, l = p ++ lstrip_bytes fwd l /\ Forall not_brace p.
Proof.
  remember (length l) as n eqn:Hn. revert l Hn.
  induction n as [n IH] using lt_wf_ind. intros l ->.
  destruct l as [|a t1]; [by exists []|].
  cbn [lstrip_bytes]. destruct (ws1 a) eqn:E1.
  { destruct (IH (length t1) ltac:(cbn; lia) t1 eq_refl) as (p & Hp & Hf).
    exists (a :: p). split; [cbn; congruence|].
    constructor; [by apply ws1_not_brace|done]. }
  destruct t1 as [|b t2]; [by exists []|].
  destruct (if fwd then ws2 a b else ws2 b a) eqn:E2.
  { destruct (IH (length t2) ltac:(cbn; lia) t2 eq_refl) as (p & Hp & Hf).
    exists (a :: b :: p). split; [cbn; congruence|].
    assert (not_brace a /\ not_brace b) as [? ?].
    { destruct fwd; apply ws2_not_brace in E2; tauto. }
    by apply Forall_cons_2, Forall_cons_2. }
  destruct t2 as [|c t3]; [by exists []|].
  destruct (if fwd then ws3 a b c else ws3 c b a) eqn:E3.
  { destruct (IH (length t3) ltac:(cbn; lia) t3 eq_refl) as (p & Hp & Hf).
    exists (a :: b :: c :: p). split; [cbn; congruence|].
    assert (not_brace a /\ not_brace b /\ not_brace c) as (? & ? & ?).
    { destruct fwd; apply ws3_not_brace in E3; tauto. }
    by apply Forall_cons_2, Forall_cons_2, Forall_cons_2. }
  by exists [].
Qed.

Lemma search_braces_skip p l :
  Forall not_brace p -> search_braces (p ++ l) = search_braces l.
Proof.
  induction 1 as [|a p [Ha _] _ IH]; [done|]. cbn [app search_braces].
  destruct (Ascii.eqb a "{") eqn:E; [|done].
  apply Ascii.eqb_eq in E. done.
Qed.

Lemma match_dotstar_close_trail l s :
  Forall not_brace s -> match_dotstar_close (l ++ s) = match_dotstar_close l.
Proof.
  intros Hs. induction l as [|c l IH]; cbn [app match_dotstar_close].
  - apply match_dotstar_close_none. intros Hin.
    rewrite Forall_forall in Hs. by destruct (Hs _ Hin).
  - by rewrite IH.
Qed.

Lemma search_braces_trail l s :
  Forall not_brace s -> search_braces (l ++ s) = search_braces l.
Proof.
  intros Hs. induction l as [|c l IH]; cbn [app search_braces].
  - destruct (search_braces s) as [m|] eqn:E; [|done].
    apply search_braces_some in E as (pre & body & post & -> & _).
    rewrite Forall_forall in Hs. destruct (Hs open_brace) as [Ho _]; [|done].
    rewrite elem_of_app. right. left.
  - by rewrite match_dotstar_close_trail, IH.
Qed.

Lemma re_search_braces_strip text :
  re_search_braces (py_strip text) = re_search_braces text.
Proof.
  unfold re_search_braces, py_strip. f_equal.
  rewrite list_ascii_of_string_of_list_ascii.
  set (l := list_ascii_of_string text).
  destruct (lstrip_bytes_split true l) as (p & Hl & Hp).
  destruct (lstrip_bytes_split false (rev (lstrip_bytes true l))) as (q & Hr & Hq).
  set (core := rev (lstrip_bytes false (rev (lstrip_bytes true l)))) in *.
  assert (Hmid : lstrip_bytes true l = core ++ rev q).
  { subst core. rewrite <- rev_app_distr, <- Hr. by rewrite rev_involutive. }
  rewrite Hl, Hmid, search_braces_skip by done.
  rewrite search_braces_trail; [done|]. by apply Forall_rev.
Qed.

Lemma parse_extraction_span cfg text pre body post :
  spans text pre body post ->
  parse_extraction cfg text = default [] (json_loads cfg (span_text body)).
Proof.
  intros (Htext & Hpre & Hpost). unfold parse_extraction.
  rewrite re_search_braces_strip. unfold re_search_braces.
  assert (Hs : search_braces (list_ascii_of_string text)
               = Some (open_brace :: (body ++ [close_brace]))).
  { apply search_braces_some. exists pre, body, post. by rewrite Htext. }
  rewrite Hs. cbn [fmap option_fmap option_map]. unfold span_text.
  by destruct (json_loads cfg _).
Qed.

Lemma parse_extraction_no_span cfg text :
  (forall pre body post, ~ spans text pre body post) ->
  parse_extraction cfg text = [].
Proof.
  intros Hno. unfold parse_extraction.
  rewrite re_search_braces_strip. unfold re_search_braces.
  destruct (search_braces (list_ascii_of_string text)) as [m|] eqn:E; [|done].
  apply search_braces_some in E as (pre & body & post & Htext & _ & Hpre & Hpost).
  by destruct (Hno pre body post).
Qed.

(** ** Further symbolic execution *)

Ltac red_stats :=
  unfold bump_total_messages, bump_completed_clients;
  cbn [total_clients completed_clients total_messages stats set_stats].

Ltac close_ledger H :=
  finished H; simplify_eq; red_engine;
  split_and!;
  [ reflexivity | reflexivity | reflexivity
  | first [ exists []; split; [by rewrite app_nil_r | constructor]
          | eexists [_]; split; [reflexivity | by repeat constructor]
          | eexists [_; _]; split; [by rewrite <- app_assoc | by repeat constructor] ]
  | first [ intros Hx; discriminate Hx | intros _; reflexivity ]
  | first [ intros Hx; discriminate Hx
          | intros _; eexists; split_and!; red_engine;
            [ rewrite ?insert_insert_eq; apply lookup_insert_eq
            | reflexivity | red_stats; lia .. ] ] ].

Lemma chat_turn_ledger cfg o uid msg w r w' evs :
  chat_turn cfg o uid msg w = (r, w', evs) ->
  _initialized (core w') = _initialized (core w)
  /\ completion_handlers (core w') = completion_handlers (core w)
  /\ message_handlers (core w') = message_handlers (core w)
  /\ (exists log, db_messages (db w') = db_messages (db w) ++ log
        /\ Forall (fun row => msg_user_id row = uid) log)
  /\ (lookup_fault o uid w = true -> w' = w)
  /\ (lookup_fault o uid w = false ->
      exists c', clients (core w') !! uid = Some c'
        /\ message_count c' = message_count (resolve cfg uid w) + 1
        /\ total_messages (stats (core w')) = total_messages (stats (core w)) + 1
        /\ total_clients (stats (core w')) =
           total_clients (stats (core w)) + (if known uid w then 0 else 1)
        /\ completed_clients (stats (core w')) =
           completed_clients (stats (core w))
           + (if negb (save_user_message_fails o) && marker_seen cfg o then 1 else 0)).
Proof.
  destruct w as [c d], o as [t f1 f2 lq f3 f4 rp e f5 f6].
  unfold resolve, lookup_fault, known, marker_seen. unfold_engine. red_engine.
  intros H.
  destruct (clients c !! uid) as [c0|] eqn:Hc; red_engine.
  2: destruct f3; red_engine; [close_ledger H|].
  2: destruct (db_clients d !! uid) as [row|] eqn:Hrow; red_engine.
  all: destruct (py_in (COMPLETION_MARKER cfg) (reply_text cfg _)) eqn:Hm; red_engine.
  all: destruct f4; red_engine; try close_ledger H.
  all: try destruct (format_extraction_prompt cfg _) as [prompt|] eqn:Hf; red_engine.
  all: destruct f5; red_engine; try close_ledger H.
  all: try (destruct f6; red_engine; try close_ledger H).
  all: try (destruct (is_complete c0) eqn:Hic); try (destruct (row_is_complete row) eqn:Hic);
    red_engine.
  all: close_ledger H.
Qed.

Lemma ensure_initialized_result o w r w1 ev1 :
  _ensure_initialized o w = (r, w1, ev1) -> r = Returned tt ->
  _initialized (core w1) = true
  /\ stats (core w1) =
     if _initialized (core w) then stats (core w)
     else mkStats (Z.of_nat (size (db_clients (db w))))
            (count_completed (db_clients (db w)))
            (Z.of_nat (length (db_messages (db w)))).
Proof.
  destruct w as [c d], o as [t f1 f2 lq f3 f4 rp e f5 f6].
  unfold_engine. red_engine. intros H Hr.
  destruct (_initialized c) eqn:Hi; red_engine.
  2: destruct f1; red_engine; [|destruct f2; red_engine; [destruct lq; red_engine|]].
  all: simplify_eq; red_engine; red_stats; rewrite ?Hi; done.
Qed.

(** [chat] once the initialisation got through: the turn, and the error
    observers when it raised. *)
Lemma chat_unfold cfg o uid msg w :
  init_ok o w = true ->
  exists w1 r w2 evs,
    _ensure_initialized o w = (Returned tt, w1, [])
    /\ chat_turn cfg o uid msg w1 = (r, w2, evs)
    /\ chat cfg o uid msg w =
       (Returned match r with
                 | Returned resp => resp
                 | Raised _ => technical_error_response cfg
                 end,
        w2,
        evs ++ match r with
               | Returned _ => []
               | Raised e => map (fun h => EvErrorHandler h uid msg e) (error_handlers (core w2))
               end).
Proof.
  intros Hinit. unfold chat, bind.
  destruct (_ensure_initialized o w) as [[[[]|e0] w1] ev1] eqn:Hi;
    pose proof Hi as Hf;
    apply ensure_initialized_frame in Hf as (_ & _ & _ & _ & _ & _ & -> & Hr).
  2: { destruct Hr as (_ & Hni & _). congruence. }
  destruct (chat_turn cfg o uid msg w1) as [[[resp|e0] w2] ev2] eqn:Hturn.
  - exists w1, (Returned resp), w2, ev2. unfold try_except. rewrite Hturn.
    by rewrite app_nil_r.
  - exists w1, (Raised e0), w2, ev2. unfold try_except. rewrite Hturn.
    unfold_engine. red_engine. by rewrite app_nil_r.
Qed.

Lemma chat_log cfg o uid msg w :
  exists log,
    db_messages (db (world_after (chat cfg o uid msg w))) = db_messages (db w) ++ log
    /\ Forall (fun row => msg_user_id row = uid) log.
Proof.
  destruct (init_ok o w) eqn:Hinit.
  - destruct (chat_unfold cfg o uid msg w Hinit) as (w1 & r & w2 & evs & Hi & Hturn & ->).
    apply ensure_initialized_frame in Hi as (_ & _ & _ & _ & _ & Hdb & _).
    apply chat_turn_ledger in Hturn as (_ & _ & _ & Hlog & _).
    unfold world_after. cbn [fst snd]. by rewrite <- Hdb.
  - rewrite chat_init_fails by done. exists []. unfold world_after. cbn.
    by rewrite app_nil_r.
Qed.

Lemma exec_log cfg o c w :
  exists log, db_messages (db (fst (exec cfg o c w))) = db_messages (db w) ++ log.
Proof.
  destruct c as [uid msg|uid|uid|].
  - destruct (chat_log cfg o uid msg w) as (log & Hlog & _). exists log.
    unfold world_after in Hlog. cbn [exec].
    by destruct (chat cfg o uid msg w) as [[r w1] ev1].
  - destruct (exec cfg o (CallReset uid) w) as [w' evs] eqn:H.
    apply exec_effect_cases in H as (_ & H & _). exists []. by rewrite app_nil_r.
  - destruct (exec cfg o (CallGetClient uid) w) as [w' evs] eqn:H.
    apply exec_effect_cases in H as (_ & H & _). exists []. cbn [fst].
    by rewrite H, app_nil_r.
  - exists []. by rewrite app_nil_r.
Qed.

Lemma messages_of_app uid l1 l2 :
  messages_of uid (l1 ++ l2) = messages_of uid l1 ++ messages_of uid l2.
Proof. apply List.filter_app. Qed.

Lemma messages_of_others uid k log :
  k <> uid -> Forall (fun row => msg_user_id row = uid) log -> messages_of k log = [].
Proof.
  intros Hk. induction 1 as [|row log Hrow _ IH]; [done|].
  cbn. destruct (String.eqb_spec (msg_user_id row) k); [congruence|done].
Qed.



(** *** A record that is complete in the cache *)





(** ** The claims *)

(** C8 (amended).  On a newly completed turn whose store operations succeed,
    the data extracted are what [json.loads] makes of the span from the first
    opening brace to the last closing brace of the extraction response,
    wherever it stands in the response; when the response has no such span,
    or the span is not valid JSON, the data are the empty mapping; in each
    case the turn reports completion and the record keeps the data. *)
Theorem extraction_parses_greedy_span cfg o uid msg w text prompt :
  init_ok o w = true -> turn_store_fault o uid w = false ->
  is_complete (resolve cfg uid w) = false -> marker_seen cfg o = true ->
  format_extraction_prompt cfg (raw_data (received_record (resolve cfg uid w) msg))
  = Some prompt ->
  gpt_extraction o = Some text ->
  exists d w' evs c',
    chat cfg o uid msg w = (Returned (mkBotResponse (bot_text cfg o) true (Some d)), w', evs)
    /\ In (EvExtractionCall prompt) evs
    /\ clients (core w') !! uid = Some c'
    /\ is_complete c' = true /\ final_data c' = Some d
    /\ (forall pre body post, spans text pre body post ->
          d = default [] (json_loads cfg (span_text body)))
    /\ (forall pre body post, spans text pre body post ->
          json_loads cfg (span_text body) = None -> d = [])
    /\ ((forall pre body post, ~ spans text pre body post) -> d = []).
Proof.
  intros Hinit Hfault Hnew Hm Hf Ht.
  destruct (chat_ok cfg o uid msg w Hinit Hfault) as (w' & Hchat & Hcl & _).
  exists (parse_extraction cfg text), w', (turn_events cfg o uid msg w),
    (answered_record cfg o (resolve cfg uid w) msg).
  split_and!.
  - rewrite Hchat. unfold turn_response, extraction_result. by rewrite Hm, Hf, Ht.
  - unfold turn_events, extraction_events. rewrite Hm, Hf.
    apply in_cons, in_eq.
  - by rewrite Hcl, lookup_insert_eq.
  - unfold answered_record. by rewrite Hm.
  - unfold answered_record, extraction_result. by rewrite Hm, Hf, Ht.
  - intros pre body post Hs. by eapply parse_extraction_span.
  - intros pre body post Hs Hnone.
    rewrite (parse_extraction_span cfg text pre body post Hs). by rewrite Hnone.
  - apply parse_extraction_no_span.
Qed.

Lemma extraction_parses_greedy_span_witness :
  exists d w' evs c',
    chat Sample.settings Sample.closing "u" "my phone is 1" Sample.fresh
    = (Returned (mkBotResponse (bot_text Sample.settings Sample.closing) true (Some d)),
       w', evs)
    /\ In (EvExtractionCall
             ("extract from: " +:+ String "010" "Пользователь: my phone is 1")) evs
    /\ clients (core w') !! "u" = Some c'
    /\ is_complete c' = true /\ final_data c' = Some d
    /\ (forall pre body post,
          spans ("here it is: " +:+ Sample.phone_object +:+ " bye") pre body post ->
          d = default [] (json_loads Sample.settings (span_text body)))
    /\ (forall pre body post,
          spans ("here it is: " +:+ Sample.phone_object +:+ " bye") pre body post ->
          json_loads Sample.settings (span_text body) = None -> d = [])
    /\ ((forall pre body post,
           ~ spans ("here it is: " +:+ Sample.phone_object +:+ " bye") pre body post) ->
        d = []).
Proof.
  apply (extraction_parses_greedy_span Sample.settings Sample.closing "u"
           "my phone is 1" Sample.fresh); vm_compute; reflexivity.
Defined.

(** C8, as the specification has it, fails: when the insert of the bot's
    message fails on the completing turn, the extraction has been made and the
    cached record is complete, but the turn reports the technical error with
    completion false and no data. *)
Lemma extraction_unreported_on_store_failure :
  ~ completing_turn_reports_extraction Sample.settings.
Proof.
  intros H.
  destruct (H (mkOutside 50 false false false false (Some "thank you [DONE]")
                 (Some ("here it is: " +:+ Sample.phone_object +:+ " bye")) true false)
              "u" "my phone is 1" Sample.fresh
              ("here it is: " +:+ Sample.phone_object +:+ " bye")
              ("extract from: " +:+ String "010" "Пользователь: my phone is 1")
              eq_refl eq_refl eq_refl eq_refl eq_refl eq_refl eq_refl)
    as (resp & Hresp & Hdone & _).
  vm_compute in Hresp. injection Hresp as <-. discriminate Hdone.
Qed.

(** C1 (amended).  When the completion provider fails, and the store
    operations of the turn succeed, [chat] returns the fixed provider-error
    message with completion false and no data, and the turn is an ordinary
    one: the message observers are invoked and no error observer, the error
    text goes as the assistant's turn into the transcript, the buffer, the
    message log and the saved record, the message count grows by one, and the
    completion flag and the extracted data stay as they were (the error
    message is taken not to contain the completion marker). *)
Theorem provider_failure_is_answered cfg o uid msg w :
  init_ok o w = true -> turn_store_fault o uid w = false ->
  gpt_reply o = None ->
  py_in (COMPLETION_MARKER cfg) (OPENAI_ERROR cfg) = false ->
  let c0 := resolve cfg uid w in
  let response := mkBotResponse (OPENAI_ERROR cfg) false None in
  exists w' c',
    chat cfg o uid msg w
    = (Returned response, w',
       EvCompletionCall (request_messages cfg uid msg c0 (conversation_history (core w)))
       :: map (fun h => EvMessageHandler h uid msg response) (message_handlers (core w)))
    /\ clients (core w') !! uid = Some c'
    /\ message_count c' = message_count c0 + 1
    /\ is_complete c' = is_complete c0
    /\ final_data c' = final_data c0
    /\ raw_data c' =
       (raw_data c0 +:+ String "010" "Пользователь: " +:+ msg)
       +:+ String "010" "Светлана: " +:+ OPENAI_ERROR cfg
    /\ db_clients (db w') !! user_id c0 = Some (client_row cfg (now o) c')
    /\ db_messages (db w') =
       db_messages (db w)
       ++ [mkMessageRow uid (now o) "user" msg;
           mkMessageRow uid (now o) "bot" (OPENAI_ERROR cfg)]
    /\ conversation_history (core w') =
       push_turn cfg uid "assistant" (OPENAI_ERROR cfg)
         (push_turn cfg uid "user" msg (conversation_history (core w))).
Proof.
  intros Hinit Hfault Hreply Hmark c0 response.
  destruct (chat_ok cfg o uid msg w Hinit Hfault)
    as (w' & Hchat & Hcl & Hrows & Hmsgs & Hbuf).
  assert (Hrt : reply_text cfg o = OPENAI_ERROR cfg) by (unfold reply_text; by rewrite Hreply).
  assert (Hm : marker_seen cfg o = false) by (unfold marker_seen; by rewrite Hrt).
  assert (Hbt : bot_text cfg o = OPENAI_ERROR cfg) by (unfold bot_text; by rewrite Hm).
  exists w', (answered_record cfg o c0 msg). split_and!.
  - rewrite Hchat. unfold turn_events, turn_response. rewrite Hm, Hbt. cbn.
    by rewrite app_nil_r.
  - by rewrite Hcl, lookup_insert_eq.
  - unfold answered_record. by rewrite Hm.
  - unfold answered_record. by rewrite Hm.
  - unfold answered_record. by rewrite Hm.
  - unfold answered_record. by rewrite Hm, Hbt.
  - by rewrite Hrows, lookup_insert_eq.
  - by rewrite Hmsgs, Hbt.
  - by rewrite Hbuf, Hbt.
Qed.

Lemma provider_failure_is_answered_witness :
  let o := Sample.calm 7 None None in
  let c0 := resolve Sample.settings "u" Sample.fresh in
  let response := mkBotResponse "provider error" false None in
  exists w' c',
    chat Sample.settings o "u" "hello" Sample.fresh
    = (Returned response, w',
       EvCompletionCall
         (request_messages Sample.settings "u" "hello" c0
            (conversation_history (core Sample.fresh)))
       :: map (fun h => EvMessageHandler h "u" "hello" response)
            (message_handlers (core Sample.fresh)))
    /\ clients (core w') !! "u" = Some c'
    /\ message_count c' = message_count c0 + 1
    /\ is_complete c' = is_complete c0
    /\ final_data c' = final_data c0
    /\ raw_data c' =
       (raw_data c0 +:+ String "010" "Пользователь: " +:+ "hello")
       +:+ String "010" "Светлана: " +:+ "provider error"
    /\ db_clients (db w') !! user_id c0 = Some (client_row Sample.settings 7 c')
    /\ db_messages (db w') =
       db_messages (db Sample.fresh)
       ++ [mkMessageRow "u" 7 "user" "hello";
           mkMessageRow "u" 7 "bot" "provider error"]
    /\ conversation_history (core w') =
       push_turn Sample.settings "u" "assistant" "provider error"
         (push_turn Sample.settings "u" "user" "hello"
            (conversation_history (core Sample.fresh))).
Proof.
  apply (provider_failure_is_answered Sample.settings (Sample.calm 7 None None) "u"
           "hello" Sample.fresh); vm_compute; reflexivity.
Defined.

(** C1, as the specification has it, fails: with the provider down the error
    observer is not invoked and the error text is logged as the bot's turn. *)
Lemma provider_failure_takes_normal_path :
  ~ provider_failure_is_error_path Sample.settings.
Proof.
  intros H.
  destruct (H (Sample.calm 7 None None) "u" "hello" Sample.fresh
              ltac:(vm_compute; reflexivity) ltac:(vm_compute; reflexivity) eq_refl)
    as [Herr _].
  destruct (Herr "alert") as [e He]; [left; reflexivity|].
  vm_compute in He. intuition discriminate.
Qed.

Lemma filter_completion_in_map {A} (f : A -> Event) (l : list A) :
  (forall a, is_completion_event (f a) = false) ->
  List.filter is_completion_event (map f l) = [].
Proof. intros H. induction l as [|a l IH]; cbn; [done|]. by rewrite H. Qed.












(** C5 (amended).  A failure of a store write does not reach the caller: in
    [chat], once the engine is initialised, it is caught, the error observers
    are invoked with it, and the fixed technical-error response is returned;
    in [reset_client] it is caught and [False] is returned. *)
Theorem store_failure_is_caught cfg o uid msg w :
  init_ok o w = true ->
  (save_user_message_fails o || save_bot_message_fails o || save_client_fails o = true ->
   exists w' evs,
     chat cfg o uid msg w
     = (Returned (technical_error_response cfg), w',
        evs ++ map (fun h => EvErrorHandler h uid msg DatabaseError)
                 (error_handlers (core w)))
     /\ existsb is_error_event evs = false)
  /\ (save_client_fails o = true ->
      exists w', reset_client cfg o uid w = (Returned false, w', [])).
Proof.
  intros Hinit. split.
  - intros Hf. apply chat_fault; [done|]. unfold turn_store_fault.
    destruct (save_user_message_fails o), (save_bot_message_fails o), (save_client_fails o);
      try discriminate Hf; by rewrite ?orb_true_r.
  - intros Hf. destruct (reset_client cfg o uid w) as [[r w'] evs] eqn:H.
    apply reset_client_effect in H as (-> & _ & H). exists w'.
    destruct H as [(->&_)|[(->&_)|(_&_&?&_)]]; [done..|congruence].
Qed.

Lemma store_failure_is_caught_witness :
  let o := mkOutside 80 false false false false (Some "noted") None false true in
  (exists w' evs,
     chat Sample.settings o "u" "hello" Sample.fresh
     = (Returned (technical_error_response Sample.settings), w',
        evs ++ map (fun h => EvErrorHandler h "u" "hello" DatabaseError)
                 (error_handlers (core Sample.fresh)))
     /\ existsb is_error_event evs = false)
  /\ exists w', reset_client Sample.settings o "u" Sample.fresh = (Returned false, w', []).
Proof.
  intros o.
  destruct (store_failure_is_caught Sample.settings o "u" "hello" Sample.fresh eq_refl)
    as [Hchat Hreset].
  split; [apply Hchat|apply Hreset]; reflexivity.
Defined.

(** C5, as the specification has it, fails: with the write of the record
    failing, [chat] returns a response and [reset_client] returns [False]. *)
Lemma store_failure_does_not_propagate :
  ~ store_failure_propagates Sample.settings.
Proof.
  intros H.
  destruct (H (mkOutside 80 false false false false (Some "noted") None false true)
              "u" "hello" Sample.fresh eq_refl eq_refl) as [[e He] _].
  vm_compute in He. discriminate He.
Qed.

(** C9 (amended).  Once the lazy initialisation has succeeded (or when it
    succeeds in this call), [chat] returns a response whatever fails: the
    fixed technical-error response, not completed and without data, when a
    store operation of the turn fails, and the response of the turn
    otherwise, a failing provider or extraction included. *)
Theorem chat_returns_once_initialised cfg o uid msg w :
  init_ok o w = true ->
  exists resp w' evs,
    chat cfg o uid msg w = (Returned resp, w', evs)
    /\ (turn_store_fault o uid w = true -> resp = technical_error_response cfg)
    /\ (turn_store_fault o uid w = false ->
        resp = turn_response cfg o (resolve cfg uid w) msg).
Proof.
  intros Hinit. destruct (turn_store_fault o uid w) eqn:Hf.
  - destruct (chat_fault cfg o uid msg w Hinit Hf) as (w' & evs & Hchat & _).
    eexists _, _, _. split; [exact Hchat|]. split; [done|]. intros [=].
  - destruct (chat_ok cfg o uid msg w Hinit Hf) as (w' & Hchat & _).
    eexists _, _, _. split; [exact Hchat|]. split; [intros [=]|done].
Qed.

Lemma chat_returns_once_initialised_witness :
  let o := mkOutside 80 false false true false None None false false in
  exists resp w' evs,
    chat Sample.settings o "u" "hello" Sample.fresh = (Returned resp, w', evs)
    /\ (turn_store_fault o "u" Sample.fresh = true ->
        resp = technical_error_response Sample.settings)
    /\ (turn_store_fault o "u" Sample.fresh = false ->
        resp = turn_response Sample.settings o (resolve Sample.settings "u" Sample.fresh)
                 "hello").
Proof.
  intros o.
  apply (chat_returns_once_initialised Sample.settings o "u" "hello" Sample.fresh).
  reflexivity.
Defined.

(** C9, as it is written, fails: [_ensure_initialized] runs before the [try]
    block, so a database that cannot be opened on the first call makes [chat]
    raise. *)
Lemma chat_raises_when_initialisation_fails :
  ~ chat_never_raises Sample.settings.
Proof.
  intros H.
  destruct (H (mkOutside 1 true false false false (Some "hi") None false false)
              "u" "hello" Sample.fresh) as [resp Hr].
  vm_compute in Hr. discriminate Hr.
Qed.

(** The buffer is a sliding window whenever the configured maximum is at
    least 1: no buffer of a reachable engine is longer than the maximum; the turns pushed onto
    the buffer of a client that had none leave the most recent [max] of them,
    in order; and at the boundary of [max + 1] turns exactly the oldest one
    is gone. *)
Theorem buffer_is_sliding_window cfg :
  1 <= max_conversation_history cfg ->
  (forall hc hm he calls, bounded cfg (run cfg calls (boot hc hm he)))
  /\ (forall uid turns (h : gmap string (list Turn)),
        h !! uid = None -> turns <> [] ->
        push_turns cfg uid turns h !! uid
        = Some (last_n (Z.to_nat (max_conversation_history cfg)) turns))
  /\ (forall uid t turns (h : gmap string (list Turn)),
        h !! uid = None ->
        length turns = Z.to_nat (max_conversation_history cfg) ->
        push_turns cfg uid (t :: turns) h !! uid = Some turns).
Proof.
  intros Hmax. split_and!.
  - intros hc hm he calls. apply run_bounded; [done|].
    intros k l. cbn. by rewrite lookup_empty.
  - intros uid turns h Hnone Hne. rewrite push_turns_lookup by done. by rewrite Hnone.
  - intros uid t turns h Hnone Hlen. rewrite push_turns_lookup by done.
    rewrite Hnone. cbn [default from_option id app]. unfold last_n. cbn [length].
    rewrite Hlen. by replace (S (Z.to_nat (max_conversation_history cfg))
                                - Z.to_nat (max_conversation_history cfg))%nat with 1%nat by lia.
Qed.

Lemma buffer_is_sliding_window_witness :
  let turns := [mkTurn "user" "a"; mkTurn "assistant" "b"; mkTurn "user" "c";
                mkTurn "assistant" "d"; mkTurn "user" "e"] in
  1 <= max_conversation_history Sample.settings
  /\ bounded Sample.settings
       (run Sample.settings [(Sample.closing, CallChat "u" "my phone is 1")] Sample.fresh)
  /\ push_turns Sample.settings "u" turns ∅ !! "u" = Some (tail turns).
Proof.
  intros turns.
  assert (Hmax : 1 <= max_conversation_history Sample.settings) by (vm_compute; discriminate).
  destruct (buffer_is_sliding_window Sample.settings Hmax) as (Hb & _ & Hedge).
  split_and!.
  - exact Hmax.
  - apply (Hb ["notify"] ["log"] ["alert"]).
  - apply (Hedge "u"); reflexivity.
Defined.

(** With a configured maximum of 0 not every reachable buffer respects it. *)
Lemma zero_maximum_never_trims :
  ~ buffer_never_exceeds_maximum (Sample.settings_with 0).
Proof.
  intros H.
  specialize (H ["notify"] ["log"] ["alert"]
                [(Sample.calm 5 (Some "hello") None, CallChat "u" "hi")] "u"
                [mkTurn "user" "hi"; mkTurn "assistant" "hello"]
                ltac:(vm_compute; reflexivity)).
  vm_compute in H. by apply H.
Qed.

(** C7, at the failing input.  With a configured maximum of 0 the trim
    [buffer[-0:]] is the whole buffer: nothing is ever dropped.  After one
    turn the buffer of the client holds its two entries, more than the
    maximum, and whatever turns are pushed onto a buffer are all kept. *)
Theorem zero_maximum_keeps_every_turn :
  let cfg := Sample.settings_with 0 in
  let w := run cfg [(Sample.calm 5 (Some "hello") None, CallChat "u" "hi")] Sample.fresh in
  max_conversation_history cfg = 0
  /\ conversation_history (core w) !! "u"
     = Some [mkTurn "user" "hi"; mkTurn "assistant" "hello"]
  /\ ~ bounded cfg w
  /\ (forall uid turns (h : gmap string (list Turn)),
        turns <> [] ->
        push_turns cfg uid turns h !! uid = Some (default [] (h !! uid) ++ turns)).
Proof.
  intros cfg w. split_and!.
  - reflexivity.
  - vm_compute. reflexivity.
  - intros Hb.
    specialize (Hb "u" [mkTurn "user" "hi"; mkTurn "assistant" "hello"]
                  ltac:(vm_compute; reflexivity)).
    vm_compute in Hb. by apply Hb.
  - assert (Hall : forall uid turns (h : gmap string (list Turn)),
              push_turns cfg uid turns h !! uid
              = if turns is [] then h !! uid else Some (default [] (h !! uid) ++ turns)).
    { intros uid turns. induction turns as [|t turns IH] using rev_ind; intros h; [done|].
      unfold push_turns in *. rewrite fold_left_app. cbn [fold_left].
      unfold push_turn at 1. rewrite lookup_insert_eq.
      assert (Hwhole : forall l : list Turn,
                (if Z.of_nat (length l) >? 0 then py_slice_from (- 0) l else l) = l).
      { intros l. destruct (Z.of_nat (length l) >? 0); [|done].
        unfold py_slice_from. change (- 0 <? 0) with false. cbv iota.
        rewrite Z.min_l by lia. done. }
      change (max_conversation_history cfg) with 0.
      rewrite Hwhole, IH. destruct t as [r c].
      destruct turns as [|t0 turns]; [done|].
      cbn. by rewrite <- app_assoc. }
    intros uid turns h Hne. rewrite Hall. by destruct turns.
Qed.

(** C10.  [reset_client] leaves the table of messages as it is: every row is
    still there, for this client and for the others; it invokes no observer;
    the records, cache entries and buffers of the other clients are
    untouched; and when it succeeds, the record of the client is overwritten
    by a new one and its buffer removed. *)
Theorem reset_keeps_message_log cfg o uid w :
  let res := reset_client cfg o uid w in
  db_messages (db (world_after res)) = db_messages (db w)
  /\ events_of res = []
  /\ (forall k, k <> uid ->
        db_clients (db (world_after res)) !! k = db_clients (db w) !! k
        /\ clients (core (world_after res)) !! k = clients (core w) !! k
        /\ conversation_history (core (world_after res)) !! k
           = conversation_history (core w) !! k)
  /\ (outcome_of res = Returned true ->
      db_clients (db (world_after res)) !! uid
      = Some (client_row cfg (now o) (new_ClientInfo cfg uid))
      /\ clients (core (world_after res)) !! uid = Some (new_ClientInfo cfg uid)
      /\ conversation_history (core (world_after res)) !! uid = None).
Proof.
  intros res. subst res.
  destruct (reset_client cfg o uid w) as [[r w'] evs] eqn:H.
  cbn [world_after events_of outcome_of fst snd].
  apply reset_client_effect in H as (-> & Hm & H). split_and!; [done..| |].
  - intros k Hk.
    destruct H as [(_&_&Hcl&Hh&Hdb)|[(_&_&_&Hcl&Hh&Hdb)|(_&_&_&Hcl&Hh&Hdb)]];
      rewrite Hcl, Hh, Hdb, ?lookup_insert_ne, ?lookup_delete_ne by done; done.
  - intros Hr.
    destruct H as [(?&_)|[(?&_)|(_&_&_&Hcl&Hh&Hdb)]]; [congruence..|].
    by rewrite Hcl, Hh, Hdb, !lookup_insert_eq, lookup_delete_eq.
Qed.

Lemma reset_keeps_message_log_witness :
  let res := reset_client Sample.settings (Sample.calm 100 None None) "u" Sample.completed in
  db_messages (db (world_after res))
  = [mkMessageRow "u" 50 "user" "my phone is 1"; mkMessageRow "u" 50 "bot" "thank you"]
  /\ outcome_of res = Returned true.
Proof.
  intros res. subst res. split.
  - rewrite (proj1 (reset_keeps_message_log Sample.settings (Sample.calm 100 None None)
                      "u" Sample.completed)).
    vm_compute. reflexivity.
  - vm_compute. reflexivity.
Defined.

(** What [reset_client] does when nothing fails: it returns [True], invokes
    no observer, and [get_client_info] then shows the record
    [ClientInfo(user_id=uid)], whose [created_at] is the default of the
    class. *)
Lemma reset_client_zero_state cfg o o' uid w :
  init_ok o w = true -> save_client_fails o = false ->
  exists w',
    reset_client cfg o uid w = (Returned true, w', [])
    /\ conversation_history (core w') !! uid = None
    /\ get_client_info cfg o' uid w'
       = (Returned (mkClientInfo uid "" false 0 (ClientInfo_created_at_default cfg) None),
          w', []).
Proof.
  intros Hinit Hsave.
  destruct (reset_client_ok cfg o uid w Hinit Hsave) as (w' & Hr & Hcl & Hh & _).
  exists w'. split_and!; [done| |].
  - by rewrite Hh, lookup_delete_eq.
  - apply get_client_info_cached. by rewrite Hcl, lookup_insert_eq.
Qed.

(** C6, at the failing input.  The client's record was created at instant 50;
    a reset at instant 100 succeeds and leaves the zero state, but its
    [created_at] is 0, the instant at which the class [ClientInfo] was
    defined, and a second reset at instant 200 leaves the same value: the
    creation time is not set anew. *)
Theorem reset_created_at_is_not_renewed :
  let first := reset_client Sample.settings (Sample.calm 100 None None) "u" Sample.completed in
  let second :=
    reset_client Sample.settings (Sample.calm 200 None None) "u" (world_after first) in
  outcome_of first = Returned true
  /\ events_of first = []
  /\ outcome_of (get_client_info Sample.settings (Sample.calm 101 None None) "u"
                   (world_after first))
     = Returned (mkClientInfo "u" "" false 0 0 None)
  /\ outcome_of second = Returned true
  /\ outcome_of (get_client_info Sample.settings (Sample.calm 201 None None) "u"
                   (world_after second))
     = Returned (mkClientInfo "u" "" false 0 0 None).
Proof. vm_compute. split_and!; reflexivity. Qed.

(** * Further properties of the engine *)

(** X1.  Whatever the operations and whatever fails, the engine only ever
    appends to the message log: the log before a sequence of operations is a
    prefix of the log after it. *)
Theorem message_log_is_append_only cfg calls w :
  exists log, db_messages (db (run cfg calls w)) = db_messages (db w) ++ log.
Proof.
  revert w. induction calls as [|[o c] calls IH]; intros w; cbn [run].
  - exists []. by rewrite app_nil_r.
  - destruct (IH (fst (exec cfg o c w))) as (log2 & ->).
    destruct (exec_log cfg o c w) as (log1 & ->).
    exists (log1 ++ log2). by rewrite app_assoc.
Qed.

(** X2.  A [chat] for one client leaves every other client alone: their
    cached records, their buffers, their stored rows and their rows of the
    message log are what they were, whatever the outcome of the call. *)
Theorem chat_leaves_other_clients_alone cfg o uid msg w k :
  user_id (resolve cfg uid w) = uid -> k <> uid ->
  let w' := world_after (chat cfg o uid msg w) in
  clients (core w') !! k = clients (core w) !! k
  /\ conversation_history (core w') !! k = conversation_history (core w) !! k
  /\ db_clients (db w') !! k = db_clients (db w) !! k
  /\ messages_of k (db_messages (db w')) = messages_of k (db_messages (db w)).
Proof.
  intros Hid Hk w'. subst w'.
  destruct (chat_log cfg o uid msg w) as (log & Hlog & Hall).
  destruct (chat cfg o uid msg w) as [[r w'] evs] eqn:H.
  unfold world_after in *. cbn [fst snd] in *.
  assert (Hmsg : messages_of k (db_messages (db w')) = messages_of k (db_messages (db w))).
  { rewrite Hlog, messages_of_app, (messages_of_others uid k log Hk Hall). apply app_nil_r. }
  apply chat_effect in H as [(Hcl & Hh & Hdb & _)|(c' & Ht)].
  - by rewrite Hcl, Hh, Hdb.
  - destruct Ht as [Hcl Hu _ Hrows _ (turns & Hh) _ _ _].
    split_and!; [|  |  | done].
    + by rewrite Hcl, lookup_insert_ne.
    + rewrite Hh. clear -Hk. revert k Hk.
      generalize (conversation_history (core w)).
      induction turns as [|t turns IH]; intros h k Hk; [done|].
      cbn [push_turns fold_left]. unfold push_turns in IH. rewrite IH by done.
      unfold push_turn. by rewrite lookup_insert_ne.
    + destruct Hrows as [->| ->]; [done|].
      rewrite lookup_insert_ne; [done|]. congruence.
Qed.

Lemma chat_leaves_other_clients_alone_witness :
  let w' := world_after (chat Sample.settings Sample.closing "u" "again" Sample.completed) in
  clients (core w') !! "v" = clients (core Sample.completed) !! "v"
  /\ conversation_history (core w') !! "v" = conversation_history (core Sample.completed) !! "v"
  /\ db_clients (db w') !! "v" = db_clients (db Sample.completed) !! "v"
  /\ messages_of "v" (db_messages (db w')) = messages_of "v" (db_messages (db Sample.completed)).
Proof.
  apply (chat_leaves_other_clients_alone Sample.settings Sample.closing "u" "again"
           Sample.completed "v"); [by vm_compute | discriminate].
Defined.

Lemma chat_turn_fault_silent cfg o uid msg w :
  turn_store_fault o uid w = true ->
  exists w' evs,
    chat_turn cfg o uid msg w = (Raised DatabaseError, w', evs)
    /\ List.filter is_observer_event evs = []
    /\ error_handlers (core w') = error_handlers (core w)
    /\ db_clients (db w') = db_clients (db w).
Proof.
  destruct w as [c d], o as [t f1 f2 lq f3 f4 rp e f5 f6].
  unfold_scenario. unfold_engine. red_engine. intros Hfault.
  destruct (clients c !! uid) as [c0|] eqn:Hc; red_engine.
  2: destruct f3; red_engine; [by eexists _, _|].
  2: destruct (db_clients d !! uid) as [row|] eqn:Hrow; red_engine.
  all: destruct f4; red_engine; [by eexists _, _|].
  all: destruct (py_in (COMPLETION_MARKER cfg) (reply_text cfg _)) eqn:Hm; red_engine.
  all: try destruct (format_extraction_prompt cfg _) as [prompt|] eqn:Hf; red_engine.
  all: destruct f5; red_engine; [by eexists _, _|].
  all: destruct f6; red_engine; [by eexists _, _|].
  all: discriminate Hfault.
Qed.

Lemma filter_observer_in_map {A} (f : A -> Event) (l : list A) :
  (forall a, is_observer_event (f a) = true) ->
  List.filter is_observer_event (map f l) = map f l.
Proof. intros Hf. induction l as [|a l IH]; [done|]. cbn. by rewrite Hf, IH. Qed.

(** The observers a [chat] calls, in the order it calls them. *)
Lemma chat_observer_events cfg o uid msg w :
  init_ok o w = true ->
  List.filter is_observer_event (events_of (chat cfg o uid msg w)) =
  if turn_store_fault o uid w
  then map (fun h => EvErrorHandler h uid msg DatabaseError) (error_handlers (core w))
  else
    map (fun h => EvMessageHandler h uid msg (turn_response cfg o (resolve cfg uid w) msg))
      (message_handlers (core w))
    ++ (if marker_seen cfg o && negb (is_complete (resolve cfg uid w))
        then map (fun h => EvCompletionHandler h
                             (answered_record cfg o (resolve cfg uid w) msg))
               (completion_handlers (core w))
        else []).
Proof.
  intros Hinit. destruct (turn_store_fault o uid w) eqn:Hfault.
  - destruct (chat_unfold cfg o uid msg w Hinit) as (w1 & r & w2 & evs & Hi & Hturn & ->).
    apply ensure_initialized_frame in Hi as (Hcl & _ & _ & _ & Heh & _).
    destruct (chat_turn_fault_silent cfg o uid msg w1) as (w' & evs' & Hturn' & Hev & Heh' & _).
    { unfold turn_store_fault in *. by rewrite Hcl. }
    rewrite Hturn in Hturn'. simplify_eq. unfold events_of. cbn [snd].
    rewrite List.filter_app, Hev, Heh', Heh. cbn [app].
    by apply filter_observer_in_map.
  - destruct (chat_ok cfg o uid msg w Hinit Hfault) as (w' & -> & _).
    unfold events_of, turn_events, extraction_events. cbn [snd].
    rewrite !List.filter_app. cbn [List.filter is_observer_event app].
    assert (Hx : List.filter is_observer_event
              (if marker_seen cfg o
               then match format_extraction_prompt cfg
                            (raw_data (received_record (resolve cfg uid w) msg)) with
                    | Some prompt => [EvExtractionCall prompt]
                    | None => []
                    end
               else []) = []).
    { destruct (marker_seen cfg o); [|done]. by destruct (format_extraction_prompt _ _). }
    rewrite Hx. cbn [app]. rewrite filter_observer_in_map by done.
    f_equal. destruct (marker_seen cfg o && negb (is_complete (resolve cfg uid w))); [|done].
    by apply filter_observer_in_map.
Qed.

Lemma chat_response cfg o uid msg w :
  init_ok o w = true ->
  outcome_of (chat cfg o uid msg w) =
  Returned (if turn_store_fault o uid w then technical_error_response cfg
            else turn_response cfg o (resolve cfg uid w) msg).
Proof.
  intros Hinit. destruct (turn_store_fault o uid w) eqn:Hfault.
  - by destruct (chat_fault cfg o uid msg w Hinit Hfault) as (w' & evs & -> & _).
  - by destruct (chat_ok cfg o uid msg w Hinit Hfault) as (w' & -> & _).
Qed.

(** X3.  When a database block of the turn fails, [chat] answers with the
    technical error message and calls every error observer once, in the order
    of registration, with the identifier, the inbound message and the
    exception; no message observer and no completion observer is called. *)
Theorem failed_turn_calls_error_observers_only cfg o uid msg w :
  init_ok o w = true -> turn_store_fault o uid w = true ->
  let res := chat cfg o uid msg w in
  outcome_of res = Returned (mkBotResponse (TECHNICAL_ERROR cfg) false None)
  /\ List.filter is_observer_event (events_of res) =
     map (fun h => EvErrorHandler h uid msg DatabaseError) (error_handlers (core w)).
Proof.
  intros Hinit Hfault res. subst res. split.
  - by rewrite chat_response, Hfault.
  - by rewrite chat_observer_events, Hfault.
Qed.

Lemma failed_turn_calls_error_observers_only_witness :
  let o := mkOutside 9 false false false false (Some "hello") None true false in
  let res := chat Sample.settings o "u" "hi" Sample.fresh in
  outcome_of res = Returned (mkBotResponse "technical error" false None)
  /\ List.filter is_observer_event (events_of res) =
     [EvErrorHandler "alert" "u" "hi" DatabaseError].
Proof.
  apply (failed_turn_calls_error_observers_only Sample.settings
           (mkOutside 9 false false false false (Some "hello") None true false)
           "u" "hi" Sample.fresh); reflexivity.
Defined.

(** X4.  A turn without a failing database block calls no error observer.
    It calls every message observer once, in the order of registration and
    with the response that [chat] returns, and after them the completion
    observers, these exactly when the reply carries the marker and the record
    was not complete before. *)
Theorem answered_turn_calls_observers_in_order cfg o uid msg w :
  init_ok o w = true -> turn_store_fault o uid w = false ->
  let res := chat cfg o uid msg w in
  let c0 := resolve cfg uid w in
  exists resp c',
    outcome_of res = Returned resp
    /\ clients (core (world_after res)) !! uid = Some c'
    /\ List.filter is_observer_event (events_of res) =
       map (fun h => EvMessageHandler h uid msg resp) (message_handlers (core w))
       ++ (if is_completed resp && negb (is_complete c0)
           then map (fun h => EvCompletionHandler h c') (completion_handlers (core w))
           else []).
Proof.
  intros Hinit Hfault res c0. subst res c0.
  exists (turn_response cfg o (resolve cfg uid w) msg),
         (answered_record cfg o (resolve cfg uid w) msg).
  split_and!.
  - by rewrite chat_response, Hfault.
  - destruct (chat_ok cfg o uid msg w Hinit Hfault) as (w' & -> & Hcl & _).
    unfold world_after. cbn [fst snd]. rewrite Hcl. apply lookup_insert_eq.
  - by rewrite chat_observer_events, Hfault.
Qed.

Lemma answered_turn_calls_observers_in_order_witness :
  let w := mkWorld (on_message "audit" (on_completion "crm" (core Sample.fresh)))
             (db Sample.fresh) in
  let res := chat Sample.settings Sample.closing "u" "my phone is 1" w in
  let c0 := resolve Sample.settings "u" w in
  exists resp c',
    outcome_of res = Returned resp
    /\ clients (core (world_after res)) !! "u" = Some c'
    /\ List.filter is_observer_event (events_of res) =
       map (fun h => EvMessageHandler h "u" "my phone is 1" resp) ["log"; "audit"]
       ++ (if is_completed resp && negb (is_complete c0)
           then map (fun h => EvCompletionHandler h c') ["notify"; "crm"]
           else []).
Proof.
  apply (answered_turn_calls_observers_in_order Sample.settings Sample.closing
           "u" "my phone is 1"
           (mkWorld (on_message "audit" (on_completion "crm" (core Sample.fresh)))
              (db Sample.fresh))); reflexivity.
Defined.

(** ** Registration of observers *)

Lemma fold_on_completion hs c :
  fold_left (fun bot h => on_completion h bot) hs c =
  mkCore (clients c) (conversation_history c) (completion_handlers c ++ hs)
    (message_handlers c) (error_handlers c) (stats c) (_initialized c).
Proof.
  revert c. induction hs as [|h hs IH]; intros c; cbn [fold_left].
  - rewrite app_nil_r. by destruct c.
  - rewrite IH. cbn. by rewrite <- app_assoc.
Qed.

Lemma fold_on_message hs c :
  fold_left (fun bot h => on_message h bot) hs c =
  mkCore (clients c) (conversation_history c) (completion_handlers c)
    (message_handlers c ++ hs) (error_handlers c) (stats c) (_initialized c).
Proof.
  revert c. induction hs as [|h hs IH]; intros c; cbn [fold_left].
  - rewrite app_nil_r. by destruct c.
  - rewrite IH. cbn. by rewrite <- app_assoc.
Qed.

Lemma fold_on_error hs c :
  fold_left (fun bot h => on_error h bot) hs c =
  mkCore (clients c) (conversation_history c) (completion_handlers c)
    (message_handlers c) (error_handlers c ++ hs) (stats c) (_initialized c).
Proof.
  revert c. induction hs as [|h hs IH]; intros c; cbn [fold_left].
  - rewrite app_nil_r. by destruct c.
  - rewrite IH. cbn. by rewrite <- app_assoc.
Qed.

Lemma fold_builder_step steps b :
  fold_left builder_step steps b =
  mkBotBuilder (_completion_handlers b ++ omap completion_handler_of steps)
    (_message_handlers b ++ omap message_handler_of steps)
    (_error_handlers b ++ omap error_handler_of steps).
Proof.
  revert b. induction steps as [|s steps IH]; intros b; cbn [fold_left].
  - rewrite !app_nil_r. by destruct b.
  - rewrite IH. destruct s; cbn; by rewrite <- ?app_assoc.
Qed.

(** X5.  The engine a [BotBuilder] chain builds is a new engine whose three
    observer lists hold the observers of the chain, each list in the order in
    which the chain added its observers, however the three kinds were mixed. *)
Theorem build_registers_in_chain_order steps :
  build (fold_left builder_step steps new_BotBuilder) =
  new_core (omap completion_handler_of steps) (omap message_handler_of steps)
    (omap error_handler_of steps).
Proof.
  rewrite fold_builder_step. unfold build.
  rewrite fold_on_completion, fold_on_message, fold_on_error. reflexivity.
Qed.

(** ** Lookups *)

Lemma get_client_info_stats cfg o uid w :
  select_client_fails o = false ->
  outcome_of (get_client_info cfg o uid w) = Returned (resolve cfg uid w)
  /\ stats (core (world_after (get_client_info cfg o uid w))) =
     (if known uid w then stats (core w)
      else mkStats (total_clients (stats (core w)) + 1) (completed_clients (stats (core w)))
             (total_messages (stats (core w))))
  /\ _initialized (core (world_after (get_client_info cfg o uid w))) = _initialized (core w).
Proof.
  destruct w as [c d], o as [t f1 f2 lq f3 f4 rp e f5 f6].
  unfold resolve, known, outcome_of, world_after. unfold_engine. red_engine. intros ->.
  destruct (clients c !! uid) as [c0|] eqn:Hc; red_engine; [done|].
  destruct (db_clients d !! uid) as [row|] eqn:Hrow; red_engine; done.
Qed.

(** X6.  [get_client_info] reads: it writes nothing to the database, touches
    no buffer, calls nobody and leaves the cached records of the other
    identifiers as they are.  A cached record is returned as it is, without
    a look at the database, and a lookup that raises changes nothing. *)
Theorem get_client_info_only_reads cfg o uid w :
  let res := get_client_info cfg o uid w in
  db (world_after res) = db w
  /\ conversation_history (core (world_after res)) = conversation_history (core w)
  /\ events_of res = []
  /\ (forall k, k <> uid ->
        clients (core (world_after res)) !! k = clients (core w) !! k)
  /\ (forall c, clients (core w) !! uid = Some c -> res = (Returned c, w, []))
  /\ (forall e, outcome_of res = Raised e -> world_after res = w).
Proof.
  intros res. subst res.
  destruct (get_client_info cfg o uid w) as [[r w'] evs] eqn:H.
  unfold world_after, events_of, outcome_of. cbn [fst snd].
  split_and!.
  - by apply get_client_info_effect in H as (_ & ? & _).
  - by apply get_client_info_effect in H as (_ & _ & ? & _).
  - by apply get_client_info_effect in H as (? & _).
  - intros k Hk. apply get_client_info_effect in H as (_ & _ & _ & [(_ & -> & _)|(_ & ->)]);
      [done|by rewrite lookup_insert_ne].
  - intros c Hc. rewrite <- H. by apply get_client_info_cached.
  - intros e ->. revert H. clear.
    destruct w as [c d], o as [t f1 f2 lq f3 f4 rp e1 f5 f6].
    unfold_engine. red_engine.
    destruct (clients c !! uid) as [c0|] eqn:Hc; red_engine; [by intros [= <-]|].
    destruct f3; red_engine; [by intros [= <-]|].
    destruct (db_clients d !! uid) as [row|] eqn:Hrow; red_engine; by intros [=].
Qed.

(** X7.  A lookup of an identifier the engine has no record of, cached or
    stored, returns a new empty record and counts a new client, though no row
    is written; a lookup of a known identifier leaves the counters alone.  A
    second lookup returns the same record and changes nothing. *)
Theorem lookup_counts_unknown_client cfg o o' uid w :
  select_client_fails o = false ->
  let res := get_client_info cfg o uid w in
  outcome_of res = Returned (resolve cfg uid w)
  /\ users_count (get_stats (core (world_after res))) =
     users_count (get_stats (core w)) + (if known uid w then 0 else 1)
  /\ db_clients (db (world_after res)) = db_clients (db w)
  /\ (known uid w = false -> resolve cfg uid w = new_ClientInfo cfg uid)
  /\ get_client_info cfg o' uid (world_after res)
     = (Returned (resolve cfg uid w), world_after res, []).
Proof.
  intros Hsel res. subst res.
  destruct (get_client_info_stats cfg o uid w Hsel) as (Hr & Hst & _).
  split_and!.
  - done.
  - unfold get_stats, users_count. rewrite Hst. destruct (known uid w); cbn; lia.
  - destruct (get_client_info cfg o uid w) as [[r w'] evs] eqn:H.
    apply get_client_info_effect in H as (_ & Hdb & _).
    unfold world_after. cbn [fst snd]. by rewrite Hdb.
  - unfold known, resolve. destruct (clients (core w) !! uid); [done|].
    by destruct (db_clients (db w) !! uid).
  - apply get_client_info_cached.
    destruct (get_client_info cfg o uid w) as [[r w'] evs] eqn:H.
    unfold outcome_of, world_after in *. cbn [fst snd] in *. subst r.
    apply get_client_info_effect in H as (_ & _ & _ & [(Hx & _)|(_ & ->)]); [done|].
    apply lookup_insert_eq.
Qed.

Lemma lookup_counts_unknown_client_witness :
  let o := Sample.calm 3 None None in
  let res := get_client_info Sample.settings o "ghost" Sample.completed in
  outcome_of res = Returned (resolve Sample.settings "ghost" Sample.completed)
  /\ users_count (get_stats (core (world_after res))) =
     users_count (get_stats (core Sample.completed)) + 1
  /\ db_clients (db (world_after res)) = db_clients (db Sample.completed)
  /\ (known "ghost" Sample.completed = false ->
      resolve Sample.settings "ghost" Sample.completed
      = new_ClientInfo Sample.settings "ghost")
  /\ get_client_info Sample.settings o "ghost" (world_after res)
     = (Returned (resolve Sample.settings "ghost" Sample.completed), world_after res, []).
Proof.
  apply (lookup_counts_unknown_client Sample.settings (Sample.calm 3 None None)
           (Sample.calm 3 None None) "ghost" Sample.completed). reflexivity.
Defined.

(** ** Counting and storing *)

Lemma smooth_ok o uid w :
  smooth o = true -> init_ok o w = true /\ turn_store_fault o uid w = false.
Proof.
  unfold smooth, init_ok, turn_store_fault. intros H.
  repeat (apply andb_true_iff in H as [H ?]).
  repeat match goal with Hx : negb _ = true |- _ => apply negb_true_iff in Hx; rewrite Hx end.
  split; [apply orb_true_r|]. by destruct (clients (core w) !! uid).
Qed.

(** After a turn without a failing database block the cached record of the
    client is the answered record, and its row is this record as saved. *)
Lemma chat_ok_record cfg o uid msg w :
  init_ok o w = true -> turn_store_fault o uid w = false ->
  user_id (resolve cfg uid w) = uid ->
  let w' := world_after (chat cfg o uid msg w) in
  resolve cfg uid w' = answered_record cfg o (resolve cfg uid w) msg
  /\ clients (core w') !! uid = Some (resolve cfg uid w')
  /\ db_clients (db w') !! uid = Some (client_row cfg (now o) (resolve cfg uid w'))
  /\ db_messages (db w') =
     db_messages (db w)
     ++ [mkMessageRow uid (now o) "user" msg; mkMessageRow uid (now o) "bot" (bot_text cfg o)].
Proof.
  intros Hinit Hfault Hid w'. subst w'.
  destruct (chat_ok cfg o uid msg w Hinit Hfault) as (w' & -> & Hcl & Hrows & Hlog & _).
  unfold world_after. cbn [fst snd].
  assert (Hres : resolve cfg uid w' = answered_record cfg o (resolve cfg uid w) msg).
  { unfold resolve at 1. by rewrite Hcl, lookup_insert_eq. }
  rewrite Hres. split_and!; [done| |  |done].
  - rewrite Hcl. apply lookup_insert_eq.
  - rewrite Hrows, Hid. apply lookup_insert_eq.
Qed.

Lemma answered_record_fields cfg o c0 msg :
  user_id (answered_record cfg o c0 msg) = user_id c0
  /\ message_count (answered_record cfg o c0 msg) = message_count c0 + 1.
Proof. unfold answered_record, received_record. by destruct (marker_seen cfg o). Qed.

(** X8.  A turn that finds the record and then fails at a database block is
    answered with the technical error message, and it is counted all the
    same: the cached record has one message more, while the stored rows of
    table [clients] are what they were. *)
Theorem failed_turn_is_counted cfg o uid msg w :
  init_ok o w = true -> lookup_fault o uid w = false ->
  save_user_message_fails o || save_bot_message_fails o || save_client_fails o = true ->
  let res := chat cfg o uid msg w in
  exists c',
    outcome_of res = Returned (mkBotResponse (TECHNICAL_ERROR cfg) false None)
    /\ clients (core (world_after res)) !! uid = Some c'
    /\ message_count c' = message_count (resolve cfg uid w) + 1
    /\ db_clients (db (world_after res)) = db_clients (db w).
Proof.
  intros Hinit Hlook Hsave res. subst res.
  assert (Hfault : turn_store_fault o uid w = true).
  { unfold turn_store_fault. unfold lookup_fault in Hlook. rewrite Hlook. exact Hsave. }
  destruct (chat_unfold cfg o uid msg w Hinit) as (w1 & r & w2 & evs & Hi & Hturn & ->).
  apply ensure_initialized_frame in Hi as (Hcl & _ & _ & _ & _ & Hdb & _).
  destruct (chat_turn_fault_silent cfg o uid msg w1) as (w' & evs' & Hturn' & _ & _ & Hrows).
  { unfold turn_store_fault in *. by rewrite Hcl. }
  rewrite Hturn in Hturn'. simplify_eq.
  apply chat_turn_ledger in Hturn as (_ & _ & _ & _ & _ & Hc).
  destruct Hc as (c' & Hc' & Hcount & _).
  { unfold lookup_fault in *. by rewrite Hcl. }
  exists c'. unfold outcome_of, world_after. cbn [fst snd].
  rewrite (resolve_frame _ _ _ _ Hcl Hdb) in Hcount.
  by rewrite Hrows, Hdb.
Qed.

Lemma failed_turn_is_counted_witness :
  let o := mkOutside 9 false false false false (Some "hello") None false true in
  let res := chat Sample.settings o "u" "hi" Sample.fresh in
  exists c',
    outcome_of res = Returned (mkBotResponse "technical error" false None)
    /\ clients (core (world_after res)) !! "u" = Some c'
    /\ message_count c' = message_count (resolve Sample.settings "u" Sample.fresh) + 1
    /\ db_clients (db (world_after res)) = db_clients (db Sample.fresh).
Proof.
  apply (failed_turn_is_counted Sample.settings
           (mkOutside 9 false false false false (Some "hello") None false true)
           "u" "hi" Sample.fresh); reflexivity.
Defined.

(** X9.  In a dialogue in which no database block fails, every inbound
    message is counted once on the record and logged twice, once as received
    and once as answered; after at least one turn the stored row carries the
    count, the transcript and the completion flag of the cached record. *)
Theorem answered_messages_are_counted cfg uid turns w :
  forallb (fun om => smooth (fst om)) turns = true ->
  user_id (resolve cfg uid w) = uid ->
  let w' := run cfg (dialogue uid turns) w in
  message_count (resolve cfg uid w') =
  message_count (resolve cfg uid w) + Z.of_nat (length turns)
  /\ length (db_messages (db w')) = (length (db_messages (db w)) + 2 * length turns)%nat
  /\ (turns <> [] ->
      exists row,
        db_clients (db w') !! uid = Some row
        /\ row_message_count row = message_count (resolve cfg uid w')
        /\ row_raw_data row = raw_data (resolve cfg uid w')
        /\ row_is_complete row = is_complete (resolve cfg uid w')).
Proof.
  revert w. induction turns as [|[o msg] turns IH]; intros w Hall Hid w'; subst w'.
  - cbn. split_and!; [lia|lia|done].
  - cbn [forallb fst] in Hall. apply andb_true_iff in Hall as [Ho Hall].
    destruct (smooth_ok o uid w Ho) as [Hinit Hfault].
    destruct (chat_ok_record cfg o uid msg w Hinit Hfault Hid) as (Hres & Hcl & Hrow & Hlog).
    cbn [dialogue map run fst snd exec].
    unfold world_after in *.
    destruct (chat cfg o uid msg w) as [[r w1] ev1]. cbn [fst snd] in *.
    destruct (answered_record_fields cfg o (resolve cfg uid w) msg) as [Hu Hn].
    rewrite <- Hres in Hu, Hn.
    destruct (IH w1 Hall) as (Hcount & Hlen & Hstored); [congruence|].
    fold (dialogue uid turns). split_and!.
    + rewrite Hcount, Hn. cbn [length]. lia.
    + rewrite Hlen, Hlog, length_app. cbn [length]. lia.
    + intros _. destruct turns as [|om turns].
      * cbn [dialogue map run]. eexists. split; [exact Hrow|]. done.
      * by apply Hstored.
Qed.

Lemma answered_messages_are_counted_witness :
  let turns := [(Sample.calm 1 (Some "hello") None, "hi");
                (Sample.closing, "my phone is 1")] in
  let w' := run Sample.settings (dialogue "u" turns) Sample.fresh in
  message_count (resolve Sample.settings "u" w') =
  message_count (resolve Sample.settings "u" Sample.fresh) + 2
  /\ length (db_messages (db w')) = (length (db_messages (db Sample.fresh)) + 2 * 2)%nat
  /\ (turns <> [] ->
      exists row,
        db_clients (db w') !! "u" = Some row
        /\ row_message_count row = message_count (resolve Sample.settings "u" w')
        /\ row_raw_data row = raw_data (resolve Sample.settings "u" w')
        /\ row_is_complete row = is_complete (resolve Sample.settings "u" w')).
Proof.
  apply (answered_messages_are_counted Sample.settings "u"
           [(Sample.calm 1 (Some "hello") None, "hi"); (Sample.closing, "my phone is 1")]
           Sample.fresh); reflexivity.
Defined.

(** ** Restart and reset *)

(** X10.  What a restart keeps of a record that was answered and saved: the
    next lookup reads it back with its transcript, its completion flag and
    its message count.  The creation time is not read back, and the extracted
    data are what [json.loads] makes of the stored text, or nothing when the
    extraction was empty. *)
Theorem restart_reloads_saved_record cfg o o1 o2 uid msg w :
  init_ok o w = true -> turn_store_fault o uid w = false ->
  user_id (resolve cfg uid w) = uid ->
  select_client_fails o2 = false ->
  let w1 := world_after (chat cfg o uid msg w) in
  let c1 := resolve cfg uid w1 in
  let w2 := fst (exec cfg o1 CallRestart w1) in
  exists c2,
    outcome_of (get_client_info cfg o2 uid w2) = Returned c2
    /\ clients (core w1) !! uid = Some c1
    /\ user_id c2 = uid
    /\ raw_data c2 = raw_data c1
    /\ is_complete c2 = is_complete c1
    /\ message_count c2 = message_count c1
    /\ created_at c2 = ClientInfo_created_at_default cfg
    /\ final_data c2 = reloaded_final_data cfg c1.
Proof.
  intros Hinit Hfault Hid Hsel w1 c1 w2.
  destruct (chat_ok_record cfg o uid msg w Hinit Hfault Hid) as (_ & Hcl & Hrow & _).
  fold w1 in Hcl, Hrow. fold c1 in Hcl, Hrow. clearbody c1. clearbody w1.
  destruct (get_client_info_stats cfg o2 uid w2 Hsel) as (Hr & _).
  assert (Hres : resolve cfg uid w2 = client_of_row cfg uid (client_row cfg (now o) c1)).
  { unfold resolve, w2. cbn [exec fst core db clients new_core].
    by rewrite lookup_empty, Hrow. }
  rewrite Hres in Hr. eexists. split; [exact Hr|]. split; [exact Hcl|].
  unfold client_of_row, client_row, reloaded_final_data.
  cbn [user_id raw_data is_complete message_count created_at final_data
       row_raw_data row_final_data row_is_complete row_message_count].
  split_and!; try reflexivity.
  destruct (final_data c1) as [d|]; [|done].
  destruct (dict_truthy d); [|done]. cbn [andb]. reflexivity.
Qed.

Lemma restart_reloads_saved_record_witness :
  let o := Sample.closing in
  let w1 := world_after (chat Sample.settings o "u" "my phone is 1" Sample.fresh) in
  let c1 := resolve Sample.settings "u" w1 in
  let w2 := fst (exec Sample.settings o CallRestart w1) in
  exists c2,
    outcome_of (get_client_info Sample.settings o "u" w2) = Returned c2
    /\ clients (core w1) !! "u" = Some c1
    /\ user_id c2 = "u"
    /\ raw_data c2 = raw_data c1
    /\ is_complete c2 = is_complete c1
    /\ message_count c2 = message_count c1
    /\ created_at c2 = ClientInfo_created_at_default Sample.settings
    /\ final_data c2 = reloaded_final_data Sample.settings c1.
Proof.
  apply (restart_reloads_saved_record Sample.settings Sample.closing Sample.closing
           Sample.closing "u" "my phone is 1" Sample.fresh); reflexivity.
Defined.

Lemma push_turn_fresh cfg uid role content (h : gmap string (list Turn)) :
  0 <= max_conversation_history cfg -> h !! uid = None ->
  push_turn cfg uid role content h !! uid = Some [mkTurn role content].
Proof.
  intros Hmax Hnone. unfold push_turn. rewrite Hnone, lookup_insert_eq.
  cbn [default app length]. f_equal.
  destruct (Z.gtb_spec (Z.of_nat 1) (max_conversation_history cfg)) as [Hgt|Hle]; [|done].
  assert (max_conversation_history cfg = 0) as -> by lia. done.
Qed.

(** X11.  The buffers live in memory only.  After a restart the request to
    the provider for a client who has written before carries the system
    prompt and the new message and nothing of the earlier conversation. *)
Theorem restart_forgets_conversation cfg o o1 uid msg w row :
  0 <= max_conversation_history cfg ->
  db_clients (db w) !! uid = Some row -> row_message_count row <> 0 ->
  smooth o = true ->
  let w2 := fst (exec cfg o1 CallRestart w) in
  exists rest,
    events_of (chat cfg o uid msg w2) =
    EvCompletionCall [mkTurn "system" (SYSTEM_PROMPT cfg); mkTurn "user" msg] :: rest.
Proof.
  intros Hmax Hrow Hcount Ho w2.
  destruct (smooth_ok o uid w2 Ho) as [Hinit Hfault].
  destruct (chat_ok cfg o uid msg w2 Hinit Hfault) as (w' & -> & _).
  unfold events_of, turn_events, request_messages. cbn [snd app].
  eexists. f_equal. f_equal.
  assert (Hres : resolve cfg uid w2 = client_of_row cfg uid row).
  { unfold resolve, w2. cbn [exec fst core db clients new_core]. by rewrite lookup_empty, Hrow. }
  rewrite Hres. cbn [client_of_row user_id message_count].
  rewrite push_turn_fresh; [|done|apply lookup_empty].
  cbn [default app]. f_equal.
  destruct (Z.eqb_spec (row_message_count row + 1) 1) as [Heq|Hne]; [lia|done].
Qed.

Lemma restart_forgets_conversation_witness :
  let o := Sample.calm 60 (Some "welcome back") None in
  let w2 := fst (exec Sample.settings o CallRestart Sample.completed) in
  exists rest,
    events_of (chat Sample.settings o "u" "one more thing" w2) =
    EvCompletionCall [mkTurn "system" "persona"; mkTurn "user" "one more thing"] :: rest.
Proof.
  apply (restart_forgets_conversation Sample.settings (Sample.calm 60 (Some "welcome back") None)
           (Sample.calm 60 (Some "welcome back") None) "u" "one more thing" Sample.completed
           (client_row Sample.settings 50
              (resolve Sample.settings "u" Sample.completed)));
    [by vm_compute | by vm_compute | by vm_compute | reflexivity].
Defined.

Lemma reset_client_core cfg o uid w :
  let w' := world_after (reset_client cfg o uid w) in
  completion_handlers (core w') = completion_handlers (core w)
  /\ message_handlers (core w') = message_handlers (core w)
  /\ error_handlers (core w') = error_handlers (core w)
  /\ _initialized (core w') = init_ok o w.
Proof.
  destruct w as [c d], o as [t f1 f2 lq f3 f4 rp e f5 f6].
  unfold init_ok, world_after. unfold_engine. red_engine.
  destruct (_initialized c) eqn:Hi; red_engine.
  2: destruct f1; red_engine;
       [by rewrite Hi|destruct f2; red_engine; [destruct lq; red_engine; by rewrite Hi|]].
  all: rewrite lookup_insert_eq; red_engine; destruct f6; red_engine; done.
Qed.

(** X12.  With a configured maximum that is not negative: after a
    [reset_client] that got through, the next turn of the client, if no
    database block fails in it, is a first contact: the request is the system
    prompt, the message and the first-message instruction, the record counts
    one message and its transcript holds this one exchange; and a reply with
    the marker calls every completion observer, whatever the record was
    before the reset. *)
Theorem reset_makes_next_turn_first_contact cfg o o2 uid msg w :
  0 <= max_conversation_history cfg ->
  init_ok o w = true -> save_client_fails o = false ->
  save_user_message_fails o2 || save_bot_message_fails o2 || save_client_fails o2 = false ->
  let w1 := world_after (reset_client cfg o uid w) in
  let res := chat cfg o2 uid msg w1 in
  exists rest c',
    events_of res =
    EvCompletionCall [mkTurn "system" (SYSTEM_PROMPT cfg); mkTurn "user" msg;
                      mkTurn "system" (FIRST_MESSAGE_INSTRUCTION cfg)] :: rest
    /\ clients (core (world_after res)) !! uid = Some c'
    /\ message_count c' = 1
    /\ raw_data c' =
       ("" +:+ String "010" "Пользователь: " +:+ msg)
       +:+ String "010" "Светлана: " +:+ bot_text cfg o2
    /\ (marker_seen cfg o2 = true ->
        List.filter is_completion_event (events_of res) =
        map (fun h => EvCompletionHandler h c') (completion_handlers (core w))).
Proof.
  intros Hmax Hinit Hsave Hsave2 w1 res. subst res.
  destruct (reset_client cfg o uid w) as [[r wr] evr] eqn:Hreset.
  unfold world_after in w1. cbn [fst snd] in w1. subst w1.
  pose proof Hreset as Hframe.
  apply reset_client_effect in Hreset
    as (_ & _ & [(_ & Hx & _)|[(_ & _ & Hx & _)|(_ & _ & _ & Hcl & Hh & _)]]);
    [congruence..|].
  assert (Hres : resolve cfg uid wr = new_ClientInfo cfg uid).
  { unfold resolve. by rewrite Hcl, lookup_insert_eq. }
  destruct (reset_client_core cfg o uid w) as (Hhandlers & _ & _ & Hini).
  rewrite Hframe in Hhandlers, Hini. unfold world_after in Hhandlers, Hini.
  cbn [fst snd] in Hhandlers, Hini.
  assert (Hinit2 : init_ok o2 wr = true).
  { unfold init_ok. by rewrite Hini, Hinit. }
  assert (Hfault : turn_store_fault o2 uid wr = false).
  { unfold turn_store_fault. by rewrite Hcl, lookup_insert_eq. }
  destruct (chat_ok cfg o2 uid msg wr Hinit2 Hfault) as (w' & -> & Hcl' & _).
  unfold events_of, world_after. cbn [fst snd].
  rewrite Hres in Hcl'.
  eexists _, (answered_record cfg o2 (new_ClientInfo cfg uid) msg). split_and!.
  - unfold turn_events, request_messages. rewrite Hres.
    cbn [app new_ClientInfo user_id message_count].
    rewrite Hh, push_turn_fresh; [|done|apply lookup_delete_eq].
    cbn [default app]. reflexivity.
  - rewrite Hcl'. apply lookup_insert_eq.
  - unfold answered_record, received_record. by destruct (marker_seen cfg o2).
  - unfold answered_record, received_record. by destruct (marker_seen cfg o2).
  - intros Hm. unfold turn_events, extraction_events. rewrite Hres, Hm, Hhandlers.
    cbn [new_ClientInfo is_complete negb andb].
    rewrite !List.filter_app. cbn [List.filter is_completion_event app].
    destruct (format_extraction_prompt cfg _); cbn [List.filter is_completion_event app].
    all: rewrite filter_completion_in_map by done; cbn [app].
    all: clear; induction (completion_handlers (core w)) as [|h hs IH]; [done|];
      cbn; by rewrite IH.
Qed.

Lemma reset_makes_next_turn_first_contact_witness :
  let o := Sample.calm 70 None None in
  let w1 := world_after (reset_client Sample.settings o "u" Sample.completed) in
  let res := chat Sample.settings Sample.closing "u" "hello again" w1 in
  exists rest c',
    events_of res =
    EvCompletionCall [mkTurn "system" "persona"; mkTurn "user" "hello again";
                      mkTurn "system" "greet first"] :: rest
    /\ clients (core (world_after res)) !! "u" = Some c'
    /\ message_count c' = 1
    /\ raw_data c' =
       ("" +:+ String "010" "Пользователь: " +:+ "hello again")
       +:+ String "010" "Светлана: " +:+ bot_text Sample.settings Sample.closing
    /\ (marker_seen Sample.settings Sample.closing = true ->
        List.filter is_completion_event (events_of res) =
        map (fun h => EvCompletionHandler h c') (completion_handlers (core Sample.completed))).
Proof.
  apply (reset_makes_next_turn_first_contact Sample.settings (Sample.calm 70 None None)
           Sample.closing "u" "hello again" Sample.completed);
    [by vm_compute | reflexivity | reflexivity | reflexivity].
Defined.

(** ** Initialisation and counters *)

Lemma chat_initialized cfg o uid msg w :
  _initialized (core (world_after (chat cfg o uid msg w))) = init_ok o w.
Proof.
  destruct (init_ok o w) eqn:Hinit.
  - destruct (chat_unfold cfg o uid msg w Hinit) as (w1 & r & w2 & evs & Hi & Hturn & ->).
    apply ensure_initialized_result in Hi as [Hi _]; [|done].
    apply chat_turn_ledger in Hturn as (Hini & _).
    unfold world_after. cbn [fst snd]. congruence.
  - rewrite chat_init_fails by done. unfold world_after.
    cbn [fst snd after_failed_init core set_stats _initialized].
    unfold init_ok in Hinit. by apply orb_false_iff in Hinit as [-> _].
Qed.

Lemma health_check_cases o w :
  health_check o w =
  if init_ok o w
  then (Returned (Healthy true (initialised_stats w)),
        mkWorld (set_initialized true (set_stats (fun _ => initialised_stats w) (core w)))
          (db w), [])
  else (Returned (Unhealthy DatabaseError), after_failed_init o w, []).
Proof.
  destruct (init_ok o w) eqn:Hinit.
  - revert Hinit. destruct w as [c d], o as [t f1 f2 lq f3 f4 rp e f5 f6].
    unfold health_check, init_ok, initialised_stats. unfold_engine. red_engine.
    destruct (_initialized c) eqn:Hi; red_engine.
    2: destruct f1; red_engine; [done|destruct f2; red_engine; done].
    intros _. destruct c; cbn in *. by subst.
  - unfold health_check, try_except, bind. rewrite ensure_initialized_fails by done.
    reflexivity.
Qed.

(** X13.  Initialisation is lazy and done once.  Once a [chat], a
    [reset_client] or a [health_check] got through it, no later operation runs
    it again, whatever the database does then. *)
Theorem initialisation_is_done_once cfg o o' uid msg w :
  init_ok o w = true ->
  init_ok o' (world_after (chat cfg o uid msg w)) = true
  /\ init_ok o' (world_after (reset_client cfg o uid w)) = true
  /\ init_ok o' (world_after (health_check o w)) = true.
Proof.
  intros Hinit. unfold init_ok at 1 2 3. split_and!.
  - by rewrite chat_initialized, Hinit.
  - destruct (reset_client_core cfg o uid w) as (_ & _ & _ & ->). by rewrite Hinit.
  - by rewrite health_check_cases, Hinit.
Qed.

Lemma initialisation_is_done_once_witness :
  let o' := mkOutside 80 true true false false None None false false in
  init_ok o' (world_after (chat Sample.settings Sample.closing "u" "hi" Sample.fresh)) = true
  /\ init_ok o' (world_after (reset_client Sample.settings Sample.closing "u" Sample.fresh))
     = true
  /\ init_ok o' (world_after (health_check Sample.closing Sample.fresh)) = true.
Proof.
  apply (initialisation_is_done_once Sample.settings Sample.closing
           (mkOutside 80 true true false false None None false false)
           "u" "hi" Sample.fresh).
  reflexivity.
Defined.

(** X14.  When the initialisation fails, the engine stays uninitialised, so
    that the next operation tries again, and nothing but the counters has
    changed: records, buffers, observers and database are as they were and
    nobody is called.  The counters are those the queries of
    [_load_existing_clients] before the failing one have loaded; they are
    untouched when the tables cannot be created or the first query fails.
    The three entry points report the failure each in its own way: [chat]
    raises, [reset_client] returns false and [health_check] returns the error
    status. *)
Theorem failed_initialisation_changes_counters_only cfg o uid msg w :
  init_ok o w = false ->
  let w' := after_failed_init o w in
  chat cfg o uid msg w = (Raised DatabaseError, w', [])
  /\ reset_client cfg o uid w = (Returned false, w', [])
  /\ health_check o w = (Returned (Unhealthy DatabaseError), w', [])
  /\ _initialized (core w') = false
  /\ clients (core w') = clients (core w)
  /\ conversation_history (core w') = conversation_history (core w)
  /\ completion_handlers (core w') = completion_handlers (core w)
  /\ message_handlers (core w') = message_handlers (core w)
  /\ error_handlers (core w') = error_handlers (core w)
  /\ db w' = db w
  /\ stats (core w') =
     (if init_database_fails o then stats (core w)
      else
        match load_existing_clients_fails_at o with
        | CountClients => stats (core w)
        | CountCompleted =>
            mkStats (Z.of_nat (size (db_clients (db w))))
              (completed_clients (stats (core w))) (total_messages (stats (core w)))
        | CountMessages =>
            mkStats (Z.of_nat (size (db_clients (db w))))
              (count_completed (db_clients (db w))) (total_messages (stats (core w)))
        end)
  /\ (init_database_fails o = true \/ load_existing_clients_fails_at o = CountClients ->
      w' = w).
Proof.
  intros Hinit w'. subst w'. split_and!; try reflexivity.
  - by apply chat_init_fails.
  - unfold reset_client, try_except, bind. by rewrite ensure_initialized_fails.
  - by rewrite health_check_cases, Hinit.
  - cbn. unfold init_ok in Hinit. by apply orb_false_iff in Hinit as [-> _].
  - intros Hwhere. unfold after_failed_init, failed_load_stats.
    destruct w as [c d]. destruct c as [? ? ? ? ? st ?]. cbn.
    destruct Hwhere as [-> | ->]; [done|]. by destruct (init_database_fails o).
Qed.

Lemma failed_initialisation_changes_counters_only_witness :
  let o := mkOutsideAt 5 false true CountMessages false false (Some "hello") None false false in
  let w := fst (exec Sample.settings o CallRestart Sample.completed) in
  let w' := after_failed_init o w in
  chat Sample.settings o "u" "hi" w = (Raised DatabaseError, w', [])
  /\ reset_client Sample.settings o "u" w = (Returned false, w', [])
  /\ health_check o w = (Returned (Unhealthy DatabaseError), w', [])
  /\ _initialized (core w') = false
  /\ clients (core w') = clients (core w)
  /\ conversation_history (core w') = conversation_history (core w)
  /\ completion_handlers (core w') = completion_handlers (core w)
  /\ message_handlers (core w') = message_handlers (core w)
  /\ error_handlers (core w') = error_handlers (core w)
  /\ db w' = db w
  /\ stats (core w') = mkStats 1 1 0
  /\ (init_database_fails o = true \/ load_existing_clients_fails_at o = CountClients ->
      w' = w).
Proof.
  apply (failed_initialisation_changes_counters_only Sample.settings
           (mkOutsideAt 5 false true CountMessages false false (Some "hello") None false false)
           "u" "hi" (fst (exec Sample.settings Sample.closing CallRestart Sample.completed))).
  reflexivity.
Defined.

(** X15.  [health_check] never raises and touches neither the records, the
    buffers nor the database.  Its status is healthy exactly when the
    initialisation gets through; the flag it then reports is always true, and
    the counters it reports are, for an engine that had not run yet, the
    numbers of stored clients, of stored complete clients and of rows of the
    message log. *)
Theorem health_check_reports_initialisation o w :
  let res := health_check o w in
  outcome_of res =
  Returned (if init_ok o w then Healthy true (initialised_stats w)
            else Unhealthy DatabaseError)
  /\ (_initialized (core w) = false ->
      initialised_stats w =
      mkStats (Z.of_nat (size (db_clients (db w))))
        (count_completed (db_clients (db w)))
        (Z.of_nat (length (db_messages (db w)))))
  /\ clients (core (world_after res)) = clients (core w)
  /\ conversation_history (core (world_after res)) = conversation_history (core w)
  /\ db (world_after res) = db w
  /\ events_of res = [].
Proof.
  intros res. subst res. rewrite health_check_cases.
  unfold initialised_stats. destruct (init_ok o w); split_and!; try done.
  all: by intros ->.
Qed.

(** X16.  The counters of a turn in which no database block fails, on an
    engine that is initialised: one message more; one completion more
    whenever the reply carries the marker, also when the record was complete
    already; one client more exactly when the engine had no record of the
    identifier, cached or stored.  The message log grows by two rows. *)
Theorem counters_of_answered_turn cfg o uid msg w :
  _initialized (core w) = true -> turn_store_fault o uid w = false ->
  let w' := world_after (chat cfg o uid msg w) in
  messages_count (get_stats (core w')) = messages_count (get_stats (core w)) + 1
  /\ completions_count (get_stats (core w')) =
     completions_count (get_stats (core w)) + (if marker_seen cfg o then 1 else 0)
  /\ users_count (get_stats (core w')) =
     users_count (get_stats (core w)) + (if known uid w then 0 else 1)
  /\ length (db_messages (db w')) = (length (db_messages (db w)) + 2)%nat.
Proof.
  intros Hini Hfault w'. subst w'.
  assert (Hinit : init_ok o w = true) by (unfold init_ok; by rewrite Hini).
  destruct (chat_ok cfg o uid msg w Hinit Hfault) as (w' & Hchat & _ & _ & Hlog & _).
  destruct (chat_unfold cfg o uid msg w Hinit) as (w1 & r & w2 & evs & Hi & Hturn & Heq).
  rewrite Hchat in Heq. injection Heq as Hr <- Hev.
  pose proof Hi as Hi2. apply ensure_initialized_frame in Hi2 as (Hcl & _ & _ & _ & _ & Hdb & _).
  apply ensure_initialized_result in Hi as [_ Hst]; [|done]. rewrite Hini in Hst.
  apply chat_turn_ledger in Hturn as (_ & _ & _ & _ & _ & Hc).
  destruct Hc as (c' & _ & _ & Htm & Htc & Hcc).
  { unfold turn_store_fault in Hfault. unfold lookup_fault. rewrite Hcl.
    destruct (clients (core w) !! uid); [done|].
    by repeat (apply orb_false_iff in Hfault as [Hfault _]). }
  unfold world_after, get_stats. rewrite Hchat.
  cbn [fst snd messages_count completions_count users_count].
  rewrite Htm, Htc, Hcc, Hst, Hlog, length_app.
  assert (known uid w1 = known uid w) as -> by (unfold known; by rewrite Hcl, Hdb).
  assert (save_user_message_fails o = false) as ->.
  { unfold turn_store_fault in Hfault.
    by repeat (apply orb_false_iff in Hfault as [Hfault ?]). }
  cbn [negb andb length]. split_and!; [done|done|done|lia].
Qed.

Lemma counters_of_answered_turn_witness :
  let w' := world_after (chat Sample.settings Sample.closing "u" "again" Sample.completed) in
  messages_count (get_stats (core w')) = messages_count (get_stats (core Sample.completed)) + 1
  /\ completions_count (get_stats (core w')) =
     completions_count (get_stats (core Sample.completed))
     + (if marker_seen Sample.settings Sample.closing then 1 else 0)
  /\ users_count (get_stats (core w')) =
     users_count (get_stats (core Sample.completed))
     + (if known "u" Sample.completed then 0 else 1)
  /\ length (db_messages (db w')) = (length (db_messages (db Sample.completed)) + 2)%nat.
Proof.
  apply (counters_of_answered_turn Sample.settings Sample.closing "u" "again"
           Sample.completed); reflexivity.
Defined.

(** ** Buffers and the cache *)

Lemma push_turns_is_Some cfg uid turns (h : gmap string (list Turn)) k :
  is_Some (push_turns cfg uid turns h !! k) -> k = uid \/ is_Some (h !! k).
Proof.
  revert h. induction turns as [|t turns IH]; intros h; cbn [push_turns fold_left].
  - by right.
  - intros H. apply IH in H as [->|H]; [by left|].
    unfold push_turn in H. destruct (decide (k = uid)) as [->|Hne]; [by left|].
    right. by rewrite lookup_insert_ne in H.
Qed.

Lemma exec_buffers_cached cfg o c w :
  buffers_cached w -> buffers_cached (fst (exec cfg o c w)).
Proof.
  intros Hw. destruct (exec cfg o c w) as [w' evs] eqn:H. cbn [fst].
  apply exec_effect_cases in H. unfold buffers_cached in *.
  destruct c as [uid msg|uid|uid|].
  - destruct H as (r & [(Hcl & Hh & _)|(c' & Ht)]).
    + intros k. rewrite Hcl, Hh. apply Hw.
    + destruct Ht as [Hcl _ _ _ _ (turns & Hh) _ _ _]. intros k. rewrite Hcl, Hh.
      intros Hk. apply push_turns_is_Some in Hk as [->|Hk].
      * rewrite lookup_insert_eq. by eexists.
      * apply lookup_insert_is_Some'. right. by apply Hw.
  - destruct H as (_ & _ & [(Hcl & Hh & _)|[(Hcl & Hh & _)|(Hcl & Hh & _)]]);
      intros k; rewrite Hcl, Hh.
    + apply Hw.
    + intros Hk. apply lookup_insert_is_Some'. right. by apply Hw.
    + intros Hk. apply lookup_insert_is_Some'. right. apply Hw.
      destruct (decide (k = uid)) as [->|Hne].
      * rewrite lookup_delete_eq in Hk. by destruct Hk.
      * by rewrite lookup_delete_ne in Hk.
  - destruct H as (_ & _ & Hh & [Hcl|Hcl]); intros k; rewrite Hcl, Hh.
    + apply Hw.
    + intros Hk. apply lookup_insert_is_Some'. right. by apply Hw.
  - destruct H as (_ & _ & _ & Hh). intros k. rewrite Hh, lookup_empty.
    intros [? ?]. done.
Qed.

Lemma run_buffers_cached cfg calls w :
  buffers_cached w -> buffers_cached (run cfg calls w).
Proof.
  revert w. induction calls as [|[o c] calls IH]; intros w Hw; [done|].
  cbn [run]. by apply IH, exec_buffers_cached.
Qed.

(** X17.  Whatever was called since the database was created, every client
    with a conversation buffer has a cached record, so [get_stats] never
    reports more active conversations than there are cached records. *)
Theorem active_conversations_are_cached cfg hc hm he calls :
  let w := run cfg calls (boot hc hm he) in
  (forall k, is_Some (conversation_history (core w) !! k) -> is_Some (clients (core w) !! k))
  /\ active_conversations (get_stats (core w)) <= Z.of_nat (size (clients (core w))).
Proof.
  intros w.
  assert (Hw : buffers_cached w).
  { apply run_buffers_cached. intros k. cbn. rewrite lookup_empty. by intros [? ?]. }
  split; [exact Hw|].
  unfold get_stats, active_conversations. apply inj_le.
  rewrite <- (size_dom (D := gset string) (conversation_history (core w))).
  rewrite <- (size_dom (D := gset string) (clients (core w))).
  apply subseteq_size. intros k. rewrite !elem_of_dom. apply Hw.
Qed.

(** ** The list of all clients *)

Lemma lookup_step cfg o uid w :
  select_client_fails o = false -> known uid w = true ->
  exists w',
    _get_or_create_client cfg o uid w = (Returned (resolve cfg uid w), w', [])
    /\ clients (core w') = <[uid := resolve cfg uid w]> (clients (core w))
    /\ db w' = db w /\ stats (core w') = stats (core w).
Proof.
  intros Hsel Hknown. change (_get_or_create_client cfg o uid w) with (get_client_info cfg o uid w).
  destruct (get_client_info_stats cfg o uid w Hsel) as (Hr & Hst & _).
  rewrite Hknown in Hst.
  destruct (get_client_info cfg o uid w) as [[r w'] evs] eqn:H.
  unfold outcome_of, world_after in *. cbn [fst snd] in *. subst r.
  apply get_client_info_effect in H as (-> & Hdb & _ & [(Hx & _)|(_ & Hcl)]); [done|].
  by exists w'.
Qed.

Lemma resolve_after_lookup cfg uid k (w w' : World) :
  clients (core w') = <[uid := resolve cfg uid w]> (clients (core w)) -> db w' = db w ->
  resolve cfg k w' = resolve cfg k w.
Proof.
  intros Hcl Hdb. unfold resolve at 1. rewrite Hcl, Hdb.
  destruct (decide (k = uid)) as [->|Hne].
  - by rewrite lookup_insert_eq.
  - by rewrite lookup_insert_ne.
Qed.

Lemma get_clients_loop_ok cfg env ids w :
  (forall uid, select_client_fails (env uid) = false) ->
  Forall (fun uid => is_Some (db_clients (db w) !! uid)) ids ->
  exists w',
    get_clients_loop cfg env ids w = (Returned (map (fun uid => resolve cfg uid w) ids), w', [])
    /\ db w' = db w /\ stats (core w') = stats (core w)
    /\ (forall k, clients (core w') !! k =
                  if decide (k ∈ ids) then Some (resolve cfg k w) else clients (core w) !! k).
Proof.
  intros Hsel. revert w. induction ids as [|uid ids IH]; intros w Hall.
  - exists w. cbn. split_and!; try done.
  - apply Forall_cons in Hall as [Huid Hall].
    destruct (lookup_step cfg (env uid) uid w) as (w1 & Hstep & Hcl & Hdb & Hst).
    { apply Hsel. }
    { unfold known. destruct Huid as [row ->]. by destruct (clients (core w) !! uid). }
    destruct (IH w1) as (w' & Hloop & Hdb' & Hst' & Hcl').
    { by rewrite Hdb. }
    exists w'. cbn [get_clients_loop]. unfold bind at 1. rewrite Hstep.
    unfold bind at 1. rewrite Hloop. unfold ret. cbn [app map].
    split_and!.
    + do 4 f_equal. apply map_ext. intros k. by apply (resolve_after_lookup cfg uid).
    + congruence.
    + congruence.
    + intros k. rewrite Hcl'. rewrite (resolve_after_lookup cfg uid k w w1 Hcl Hdb).
      destruct (decide (k ∈ ids)) as [Hin|Hnin].
      * rewrite decide_True; [done|by right].
      * destruct (decide (k = uid)) as [->|Hne].
        -- rewrite decide_True by left. by rewrite Hcl, lookup_insert_eq.
        -- rewrite decide_False; [by rewrite Hcl, lookup_insert_ne|].
           intros [?|?]%elem_of_cons; done.
Qed.

(** X18.  When no query fails, [get_all_clients] returns one record for
    every row of table [clients] and for nothing else: a client who is cached
    but was never saved is not listed.  It caches what it returns, keeps the
    records that were cached before, and writes neither to the database nor
    to the counters. *)
Theorem get_all_clients_lists_stored_clients cfg env w :
  (forall uid, select_client_fails (env uid) = false) ->
  cache_keys_ok w ->
  exists found w',
    get_all_clients cfg false env w = (Returned found, w', [])
    /\ (forall uid, In uid (map user_id found) <-> is_Some (db_clients (db w) !! uid))
    /\ length found = size (db_clients (db w))
    /\ (forall c, In c found -> clients (core w') !! user_id c = Some c)
    /\ (forall k c, clients (core w) !! k = Some c -> clients (core w') !! k = Some c)
    /\ db w' = db w
    /\ stats (core w') = stats (core w).
Proof.
  intros Hsel Hkeys.
  set (ids := map fst (map_to_list (db_clients (db w)))).
  assert (Hids : forall uid, In uid ids <-> is_Some (db_clients (db w) !! uid)).
  { intros uid. unfold ids. rewrite in_map_iff. split.
    - intros ([k row] & <- & Hin). apply list_elem_of_In, elem_of_map_to_list in Hin.
      by eexists.
    - intros [row Hrow]. exists (uid, row). split; [done|].
      by apply list_elem_of_In, elem_of_map_to_list. }
  destruct (get_clients_loop_ok cfg env ids w Hsel) as (w' & Hloop & Hdb & Hst & Hcl).
  { apply Forall_forall. intros uid Hin. by apply Hids, list_elem_of_In. }
  exists (map (fun uid => resolve cfg uid w) ids), w'.
  assert (Huser : map user_id (map (fun uid => resolve cfg uid w) ids) = ids).
  { rewrite map_map. rewrite <- (map_id ids) at 2. apply map_ext.
    intros uid. by apply resolve_user_id. }
  split_and!.
  - unfold get_all_clients, bind, get_db. cbn [fst snd]. fold ids. rewrite Hloop.
    by rewrite app_nil_r.
  - intros uid. rewrite Huser. apply Hids.
  - rewrite length_map. unfold ids. by rewrite length_map, length_map_to_list.
  - intros c Hc. apply in_map_iff in Hc as (uid & <- & Hin).
    rewrite (resolve_user_id cfg uid w Hkeys), Hcl.
    rewrite decide_True; [done|]. by apply list_elem_of_In.
  - intros k c Hc. rewrite Hcl. destruct (decide (k ∈ ids)); [|done].
    unfold resolve. by rewrite Hc.
  - done.
  - done.
Qed.

Lemma get_all_clients_lists_stored_clients_witness :
  exists found w',
    get_all_clients Sample.settings false (fun _ => Sample.calm 90 None None) Sample.completed
    = (Returned found, w', [])
    /\ (forall uid, In uid (map user_id found)
                    <-> is_Some (db_clients (db Sample.completed) !! uid))
    /\ length found = size (db_clients (db Sample.completed))
    /\ (forall c, In c found -> clients (core w') !! user_id c = Some c)
    /\ (forall k c, clients (core Sample.completed) !! k = Some c ->
                    clients (core w') !! k = Some c)
    /\ db w' = db Sample.completed
    /\ stats (core w') = stats (core Sample.completed).
Proof.
  apply (get_all_clients_lists_stored_clients Sample.settings
           (fun _ => Sample.calm 90 None None) Sample.completed).
  - intros uid. reflexivity.
  - unfold Sample.completed, Sample.fresh. apply run_keys, boot_keys.
Defined.

(** ** Display of a record *)

Lemma list_ascii_of_string_app (a b : string) :
  list_ascii_of_string (a +:+ b) = list_ascii_of_string a ++ list_ascii_of_string b.
Proof. induction a as [|x a IH]; [done|]. simpl. by rewrite IH. Qed.

Lemma string_of_list_ascii_app (a b : list ascii) :
  string_of_list_ascii (a ++ b) = string_of_list_ascii a +:+ string_of_list_ascii b.
Proof. induction a as [|x a IH]; [done|]. simpl. by rewrite IH. Qed.

Lemma char_count_app (a b : list ascii) :
  char_count (a ++ b) = (char_count a + char_count b)%nat.
Proof.
  induction a as [|x a IH]; [done|]. cbn.
  destruct (is_continuation_byte x); by rewrite IH.
Qed.

Lemma py_len_app (a b : string) : py_len (a +:+ b) = py_len a + py_len b.
Proof. unfold py_len. rewrite list_ascii_of_string_app, char_count_app. lia. Qed.

Lemma take_chars_count n l : (char_count (take_chars n l) <= n)%nat.
Proof.
  revert n. induction l as [|a l IH]; intros n; cbn; [lia|].
  destruct (is_continuation_byte a) eqn:Ha; cbn.
  - rewrite Ha. apply IH.
  - destruct n as [|n]; cbn; [lia|]. rewrite Ha. specialize (IH n). lia.
Qed.

Lemma take_chars_prefix n l : exists rest, l = take_chars n l ++ rest.
Proof.
  revert n. induction l as [|a l IH]; intros n; cbn; [by exists []|].
  destruct (is_continuation_byte a).
  - destruct (IH n) as [rest Hrest]. exists rest. cbn. by rewrite <- Hrest.
  - destruct n as [|n]; [by eexists|].
    destruct (IH n) as [rest Hrest]. exists rest. cbn. by rewrite <- Hrest.
Qed.

Lemma py_slice_to_spec n s :
  0 <= n ->
  py_len (py_slice_to n s) <= n /\ exists rest, s = py_slice_to n s +:+ rest.
Proof.
  intros Hn. unfold py_slice_to.
  destruct (Z.ltb_spec n 0) as [?|_]; [lia|].
  set (k := Z.to_nat (Z.min n (py_len s))). split.
  - unfold py_len at 1. rewrite list_ascii_of_string_of_list_ascii.
    pose proof (take_chars_count k (list_ascii_of_string s)). unfold py_len in k. lia.
  - destruct (take_chars_prefix k (list_ascii_of_string s)) as [rest Hrest].
    exists (string_of_list_ascii rest).
    rewrite <- string_of_list_ascii_app, <- Hrest.
    by rewrite string_of_list_ascii_of_string.
Qed.

(** X19.  What the display makes of a dialogue that has just been completed:
    the record is complete, and it is shown as completed when the extraction
    yielded at least one field, and as in progress when the extraction came
    back empty. *)
Theorem display_status_after_completion cfg N o uid msg w :
  init_ok o w = true -> turn_store_fault o uid w = false -> marker_seen cfg o = true ->
  let res := chat cfg o uid msg w in
  exists c' d,
    clients (core (world_after res)) !! uid = Some c'
    /\ is_complete c' = true
    /\ final_data c' = Some d
    /\ extracted_data (turn_response cfg o (resolve cfg uid w) msg) = Some d
    /\ dict_get "status" (format_client_data N c') =
       JStr (if dict_truthy d then "✅ Завершена" else "В процессе").
Proof.
  intros Hinit Hfault Hm res. subst res.
  destruct (chat_ok cfg o uid msg w Hinit Hfault) as (w' & -> & Hcl & _).
  unfold world_after. cbn [fst snd]. rewrite Hcl, lookup_insert_eq.
  unfold answered_record, turn_response. rewrite Hm.
  eexists _, _. split; [reflexivity|].
  cbn [is_complete final_data with_raw_data with_final_data with_is_complete extracted_data].
  split_and!; try reflexivity.
  unfold format_client_data.
  cbn [is_complete final_data with_raw_data with_final_data with_is_complete].
  by destruct (extraction_result cfg o _).
Qed.

Lemma display_status_after_completion_witness :
  let o := Sample.calm 50 (Some "thank you [DONE]") (Some "I could not find anything") in
  let res := chat Sample.settings o "u" "my phone is 1" Sample.fresh in
  exists c' d,
    clients (core (world_after res)) !! "u" = Some c'
    /\ is_complete c' = true
    /\ final_data c' = Some d
    /\ extracted_data
         (turn_response Sample.settings o (resolve Sample.settings "u" Sample.fresh)
            "my phone is 1") = Some d
    /\ dict_get "status" (format_client_data 200 c') =
       JStr (if dict_truthy d then "✅ Завершена" else "В процессе").
Proof.
  apply (display_status_after_completion Sample.settings 200
           (Sample.calm 50 (Some "thank you [DONE]") (Some "I could not find anything"))
           "u" "my phone is 1" Sample.fresh); reflexivity.
Defined.

(** X20.  The display of [has_children] (and likewise [has_pets]) of a
    record with extracted data has three values: yes for every value that
    counts as true, so also for any text that is not empty; not stated when
    the field is missing or null; no for the other values, which are false,
    zero, the empty text and the empty containers. *)
Theorem children_and_pets_are_three_valued N c d field shown :
  final_data c = Some d -> dict_truthy d = true ->
  (field, shown) = ("has_children", "children_status")
  \/ (field, shown) = ("has_pets", "pets_status") ->
  let value := dict_get field d in
  let text := dict_get shown (format_client_data N c) in
  (json_truthy value = true -> text = JStr "✅ есть")
  /\ (value = JNull -> text = JStr "❓ не указано")
  /\ (json_truthy value = false -> value <> JNull -> text = JStr "❌ нет")
  /\ (forall s, value = JStr s -> s <> "" -> text = JStr "✅ есть").
Proof.
  intros Hd Ht Hfield value text. subst value text.
  unfold format_client_data. rewrite Hd. destruct d as [|kv d]; [done|].
  cbv beta iota. set (d0 := kv :: d). clearbody d0.
  destruct Hfield as [[= -> ->]|[= -> ->]];
    cbn [dict_get String.eqb Ascii.eqb Bool.eqb andb].
  1: generalize (dict_get "has_children" d0).
  2: generalize (dict_get "has_pets" d0).
  all: intros v; unfold tri_state.
  all: split_and!;
    [ by intros ->
    | by intros ->
    | intros Hf Hn; rewrite Hf; by destruct v
    | intros s -> Hs; by destruct s ].
Qed.

Lemma children_and_pets_are_three_valued_witness :
  let c := mkClientInfo "u" "" true 3 0 (Some [("has_children", JStr "no")]) in
  let value := dict_get "has_children" [("has_children", JStr "no")] in
  let text := dict_get "children_status" (format_client_data 200 c) in
  (json_truthy value = true -> text = JStr "✅ есть")
  /\ (value = JNull -> text = JStr "❓ не указано")
  /\ (json_truthy value = false -> value <> JNull -> text = JStr "❌ нет")
  /\ (forall s, value = JStr s -> s <> "" -> text = JStr "✅ есть").
Proof.
  apply (children_and_pets_are_three_valued 200
           (mkClientInfo "u" "" true 3 0 (Some [("has_children", JStr "no")]))
           [("has_children", JStr "no")] "has_children" "children_status");
    [reflexivity | reflexivity | by left].
Defined.

(** X21.  The preview of a record without extracted data is the transcript
    when that has at most [MAX_DIALOG_PREVIEW_LENGTH] characters; otherwise
    it is a beginning of the transcript of at most that many characters,
    followed by three dots. *)
Theorem dialog_preview_is_bounded N c :
  0 <= N -> dict_truthy (default [] (final_data c)) = false ->
  exists preview,
    dict_get "dialog_preview" (format_client_data N c) = JStr preview
    /\ py_len preview <= N + 3
    /\ (py_len (raw_data c) <= N -> preview = raw_data c)
    /\ (N < py_len (raw_data c) ->
        exists head rest,
          preview = head +:+ "..." /\ raw_data c = head +:+ rest /\ py_len head <= N).
Proof.
  intros HN Hd.
  assert (Hfmt : format_client_data N c =
    [ ("message_count", JStr (py_str_of_int (message_count c)));
      ("status", JStr "В процессе");
      ("dialog_preview",
       JStr (if py_len (raw_data c) >? N then py_slice_to N (raw_data c) +:+ "..."
             else raw_data c)) ]).
  { unfold format_client_data. destruct (final_data c) as [[|kv d]|]; done. }
  rewrite Hfmt. cbn [dict_get String.eqb Ascii.eqb Bool.eqb andb].
  destruct (py_slice_to_spec N (raw_data c) HN) as [Hlen [rest Hrest]].
  eexists. split; [reflexivity|].
  destruct (Z.gtb_spec (py_len (raw_data c)) N) as [Hgt|Hle].
  - split_and!.
    + rewrite py_len_app. change (py_len "...") with 3. lia.
    + lia.
    + intros _. by exists (py_slice_to N (raw_data c)), rest.
  - split_and!; [lia|done|lia].
Qed.

Lemma dialog_preview_is_bounded_witness :
  let c := mkClientInfo "u" "Привет, мир" false 1 0 None in
  exists preview,
    dict_get "dialog_preview" (format_client_data 6 c) = JStr preview
    /\ py_len preview <= 6 + 3
    /\ (py_len (raw_data c) <= 6 -> preview = raw_data c)
    /\ (6 < py_len (raw_data c) ->
        exists head rest,
          preview = head +:+ "..." /\ raw_data c = head +:+ rest /\ py_len head <= 6).
Proof.
  apply (dialog_preview_is_bounded 6 (mkClientInfo "u" "Привет, мир" false 1 0 None));
    [lia | reflexivity].
Defined.

(** ** Integrations *)

Lemma ensure_initialized_cases o w :
  exists w1,
    _ensure_initialized o w =
    (if init_ok o w then Returned tt else Raised DatabaseError, w1, [])
    /\ (init_ok o w = true -> _initialized (core w1) = true)
    /\ (init_ok o w = false -> w1 = after_failed_init o w).
Proof.
  destruct (init_ok o w) eqn:Hinit.
  - destruct (_ensure_initialized o w) as [[r w1] ev] eqn:H. exists w1.
    pose proof H as Hf. apply ensure_initialized_frame in Hf as (_&_&_&_&_&_& -> & Hr).
    destruct r as [[]|e].
    + split_and!; [done| |done].
      intros _. by apply ensure_initialized_result in H as [? _].
    + destruct Hr as (_ & Hx & _). congruence.
  - exists (after_failed_init o w). by rewrite ensure_initialized_fails.
Qed.

Lemma integrations_of_rows_app cfg l1 l2 a b :
  integrations_of_rows cfg l1 = Done a -> integrations_of_rows cfg l2 = Done b ->
  integrations_of_rows cfg (l1 ++ l2) = Done (a ++ b).
Proof.
  revert a. induction l1 as [|row l1 IH]; intros a; cbn [integrations_of_rows app].
  - by intros [= <-].
  - destruct (integration_of_row cfg row) as [i|]; [|done].
    destruct (integrations_of_rows cfg l1) as [a'|e]; [|done].
    intros [= <-] Hb. by rewrite (IH a' eq_refl Hb).
Qed.

Lemma integrations_of_rows_ids cfg rows l :
  integrations_of_rows cfg rows = Done l -> map integration_id l = map int_id rows.
Proof.
  revert l. induction rows as [|row rows IH]; intros l; cbn [integrations_of_rows].
  - by intros [= <-].
  - unfold integration_of_row.
    destruct (if str_truthy (int_data row) then json_loads cfg (int_data row) else Some [])
      as [d|]; [|done].
    destruct (integrations_of_rows cfg rows) as [l'|e]; [|done].
    intros [= <-]. cbn. by rewrite (IH l' eq_refl).
Qed.

Lemma id_below_next (t : IntegrationTable) row :
  In row (int_rows t) -> int_id row < next_integration_id t.
Proof.
  unfold next_integration_id. generalize (int_sequence t).
  induction (int_rows t) as [|r rows IH]; intros s; [done|].
  cbn [map fold_right]. intros [->|Hin]; [lia|]. specialize (IH s Hin). lia.
Qed.

Lemma selected_set_status client_id ty k status row :
  selected client_id ty (set_status k status row) = selected client_id ty row.
Proof. unfold set_status, selected. by destruct (int_id row =? k). Qed.

Lemma filter_map_set_status client_id ty k status rows :
  List.filter (selected client_id ty) (map (set_status k status) rows) =
  map (set_status k status) (List.filter (selected client_id ty) rows).
Proof.
  induction rows as [|row rows IH]; [done|]. cbn [map List.filter].
  rewrite selected_set_status.
  destruct (selected client_id ty row); cbn [map]; by rewrite IH.
Qed.

Lemma integrations_of_updated_rows cfg k status rows l :
  integrations_of_rows cfg rows = Done l ->
  integrations_of_rows cfg (map (set_status k status) rows) = Done (map (with_status k status) l).
Proof.
  revert l. induction rows as [|row rows IH]; intros l; cbn [integrations_of_rows map].
  - by intros [= <-].
  - destruct (integration_of_row cfg row) as [i|] eqn:Hi; [|done].
    destruct (integrations_of_rows cfg rows) as [l'|e]; [|done].
    intros [= <-]. rewrite (IH l' eq_refl). cbn [map].
    assert (integration_of_row cfg (set_status k status row) = Some (with_status k status i))
      as ->; [|done].
    revert Hi. unfold integration_of_row, set_status, with_status.
    destruct (int_id row =? k) eqn:Hk; cbn [int_data int_id].
    all: destruct (if str_truthy (int_data row) then json_loads cfg (int_data row)
                   else Some []) as [d|]; [|done].
    all: intros [= <-]; cbn [integration_id]; by rewrite Hk.
Qed.

(** X22.  An integration that was registered is listed: the next
    [get_integrations] for its client, without a type or with its type,
    returns what it returned before, followed by the new integration with the
    data as given, the status as given, or pending when none was given, and
    an id above every id listed before.  An empty type is no filter. *)
Theorem registered_integration_is_listed cfg o o1 o2 client ty itype data status w t before :
  init_ok o w = true ->
  json_loads cfg (json_dumps cfg data) = Some data ->
  str_truthy (json_dumps cfg data) = true ->
  ty = None \/ ty = Some "" \/ ty = Some itype ->
  result_of (get_integrations cfg o1 false client ty w t) = Done before ->
  let res := register_integration cfg o false client itype data status w t in
  exists new,
    result_of res = Done tt
    /\ result_of (get_integrations cfg o2 false client ty (engine_after res) (table_after res))
       = Done (before ++ [new])
    /\ new = mkIntegration (integration_id new) client itype data (default "pending" status)
               (now o)
    /\ Forall (fun i => integration_id i < integration_id new) before.
Proof.
  intros Hinit Hcodec Htruthy Hty Hbefore res. subst res.
  unfold register_integration, get_integrations, result_of, engine_after, table_after in *.
  destruct (ensure_initialized_cases o w) as (w1 & -> & Hini & _).
  specialize (Hini Hinit). rewrite Hinit. cbn [fst snd].
  destruct (ensure_initialized_cases o2 w1) as (w2 & -> & _).
  assert (init_ok o2 w1 = true) as -> by (unfold init_ok; by rewrite Hini).
  cbn [fst snd int_rows].
  destruct (ensure_initialized_cases o1 w) as (w0 & Hi0 & _). rewrite Hi0 in Hbefore.
  destruct (init_ok o1 w); [|done]. cbn [fst snd] in Hbefore.
  set (row := mkIntegrationRow (next_integration_id t) client itype (json_dumps cfg data)
                (default "pending" status) (now o)).
  assert (Hsel : selected client ty row = true).
  { unfold selected, row. cbn [int_client_id int_integration_type].
    rewrite String.eqb_refl. cbn [andb].
    destruct Hty as [->|[->| ->]]; [done|done|].
    destruct (str_truthy itype); [apply String.eqb_refl|done]. }
  exists (mkIntegration (next_integration_id t) client itype data (default "pending" status)
            (now o)).
  split_and!; [done| |done|].
  - rewrite List.filter_app. cbn [List.filter]. rewrite Hsel.
    apply integrations_of_rows_app; [done|].
    cbn [integrations_of_rows]. unfold integration_of_row, row. cbn [int_data].
    by rewrite Htruthy, Hcodec.
  - cbn [integration_id]. apply integrations_of_rows_ids in Hbefore.
    apply Forall_forall. intros i Hi.
    assert (Hin : In (integration_id i) (map int_id (List.filter (selected client ty) (int_rows t)))).
    { rewrite <- Hbefore. apply in_map. by apply list_elem_of_In. }
    apply in_map_iff in Hin as (r & <- & Hr). apply List.filter_In in Hr as [Hr _].
    by apply id_below_next.
Qed.

Lemma registered_integration_is_listed_witness :
  let t := mkIntegrationTable [] 0 in
  let res := register_integration Sample.settings Sample.closing false "u" "avito"
               [("phone", JNum 1)] None Sample.fresh t in
  exists new,
    result_of res = Done tt
    /\ result_of (get_integrations Sample.settings Sample.closing false "u" (Some "")
                    (engine_after res) (table_after res))
       = Done ([] ++ [new])
    /\ new = mkIntegration (integration_id new) "u" "avito" [("phone", JNum 1)]
               (default "pending" None) (now Sample.closing)
    /\ Forall (fun i => integration_id i < integration_id new) [].
Proof.
  apply (registered_integration_is_listed Sample.settings Sample.closing Sample.closing
           Sample.closing "u" (Some "") "avito" [("phone", JNum 1)] None Sample.fresh
           (mkIntegrationTable [] 0) []);
    [reflexivity | reflexivity | reflexivity | by right; left | reflexivity].
Defined.

(** X23.  For an id that fits an [INTEGER] of SQLite,
    [update_integration_status] changes the status of the integration with
    that id and nothing else: the next [get_integrations] returns what it
    returned before with that one status replaced, and an id that no
    integration has is accepted and changes nothing.  For an id that does not
    fit, it raises the overflow error and leaves the table as it was. *)
Theorem status_update_changes_one_integration cfg o o1 o2 client ty k status w t before :
  init_ok o w = true ->
  result_of (get_integrations cfg o1 false client ty w t) = Done before ->
  let res := update_integration_status o false k status w t in
  (fits_sqlite_integer k = true ->
   result_of res = Done tt
   /\ result_of (get_integrations cfg o2 false client ty (engine_after res) (table_after res))
      = Done (map (with_status k status) before)
   /\ int_sequence (table_after res) = int_sequence t
   /\ map int_id (int_rows (table_after res)) = map int_id (int_rows t)
   /\ (Forall (fun row => int_id row <> k) (int_rows t) -> table_after res = t))
  /\ (fits_sqlite_integer k = false ->
      result_of res = Failed OverflowError /\ table_after res = t).
Proof.
  intros Hinit Hbefore res. subst res.
  unfold update_integration_status, get_integrations, result_of, engine_after,
    table_after in *.
  destruct (ensure_initialized_cases o w) as (w1 & -> & Hini & _).
  specialize (Hini Hinit). rewrite Hinit. cbn [fst snd].
  split; intros ->; cbn [negb fst snd]; [|done].
  destruct (ensure_initialized_cases o2 w1) as (w2 & -> & _).
  assert (init_ok o2 w1 = true) as -> by (unfold init_ok; by rewrite Hini).
  cbn [fst snd int_rows int_sequence].
  destruct (ensure_initialized_cases o1 w) as (w0 & Hi0 & _). rewrite Hi0 in Hbefore.
  destruct (init_ok o1 w); [|done]. cbn [fst snd] in Hbefore.
  split_and!; [done| |done| |].
  - rewrite filter_map_set_status. by apply integrations_of_updated_rows.
  - rewrite map_map. apply map_ext. intros row. unfold set_status.
    by destruct (int_id row =? k).
  - intros Hnone. clear Hbefore. destruct t as [rows s].
    cbn [int_rows int_sequence] in *. f_equal.
    induction Hnone as [|row rows Hrow _ IH]; [done|]. cbn [map]. rewrite IH. f_equal.
    unfold set_status. destruct (Z.eqb_spec (int_id row) k); [done|done].
Qed.

Lemma status_update_changes_one_integration_witness :
  let t := mkIntegrationTable
             [mkIntegrationRow 1 "u" "avito" Sample.phone_object "pending" 10;
              mkIntegrationRow 2 "u" "crm" "" "pending" 11] 2 in
  let before :=
    [mkIntegration 1 "u" "avito" [("phone", JNum 1)] "pending" 10;
     mkIntegration 2 "u" "crm" [] "pending" 11] in
  let res := update_integration_status Sample.closing false 2 "sent" Sample.fresh t in
  (fits_sqlite_integer 2 = true ->
   result_of res = Done tt
   /\ result_of (get_integrations Sample.settings Sample.closing false "u" None
                   (engine_after res) (table_after res))
      = Done (map (with_status 2 "sent") before)
   /\ int_sequence (table_after res) = int_sequence t
   /\ map int_id (int_rows (table_after res)) = map int_id (int_rows t)
   /\ (Forall (fun row => int_id row <> 2) (int_rows t) -> table_after res = t))
  /\ (fits_sqlite_integer 2 = false ->
      result_of res = Failed OverflowError /\ table_after res = t).
Proof.
  apply (status_update_changes_one_integration Sample.settings Sample.closing Sample.closing
           Sample.closing "u" None 2 "sent" Sample.fresh
           (mkIntegrationTable
              [mkIntegrationRow 1 "u" "avito" Sample.phone_object "pending" 10;
               mkIntegrationRow 2 "u" "crm" "" "pending" 11] 2)
           [mkIntegration 1 "u" "avito" [("phone", JNum 1)] "pending" 10;
            mkIntegration 2 "u" "crm" [] "pending" 11]); reflexivity.
Defined.

(** X24.  The integration methods catch nothing: when the initialisation
    fails or their own query fails, each of them raises the database error
    and leaves the table as it was. *)
Theorem integration_methods_raise cfg o fails client ty itype data status k status' w t :
  init_ok o w = false \/ fails = true ->
  result_of (register_integration cfg o fails client itype data status w t)
    = Failed (StoreError DatabaseError)
  /\ table_after (register_integration cfg o fails client itype data status w t) = t
  /\ result_of (update_integration_status o fails k status' w t)
     = Failed (StoreError DatabaseError)
  /\ table_after (update_integration_status o fails k status' w t) = t
  /\ result_of (get_integrations cfg o fails client ty w t) = Failed (StoreError DatabaseError)
  /\ table_after (get_integrations cfg o fails client ty w t) = t.
Proof.
  intros Hfail.
  unfold register_integration, update_integration_status, get_integrations, result_of,
    table_after.
  destruct (ensure_initialized_cases o w) as (w1 & -> & _).
  split_and!.
  all: destruct (init_ok o w); [|done]; destruct Hfail as [?| ->]; done.
Qed.

Lemma integration_methods_raise_witness :
  let o := mkOutside 5 true false false false None None false false in
  let t := mkIntegrationTable [mkIntegrationRow 1 "u" "avito" "{}" "pending" 10] 1 in
  result_of (register_integration Sample.settings o false "u" "avito" [] None Sample.fresh t)
    = Failed (StoreError DatabaseError)
  /\ table_after (register_integration Sample.settings o false "u" "avito" [] None
                    Sample.fresh t) = t
  /\ result_of (update_integration_status o false 1 "sent" Sample.fresh t)
     = Failed (StoreError DatabaseError)
  /\ table_after (update_integration_status o false 1 "sent" Sample.fresh t) = t
  /\ result_of (get_integrations Sample.settings o false "u" None Sample.fresh t)
     = Failed (StoreError DatabaseError)
  /\ table_after (get_integrations Sample.settings o false "u" None Sample.fresh t) = t.
Proof.
  apply (integration_methods_raise Sample.settings
           (mkOutside 5 true false false false None None false false) false "u" None
           "avito" [] None 1 "sent" Sample.fresh
           (mkIntegrationTable [mkIntegrationRow 1 "u" "avito" "{}" "pending" 10] 1)).
  by left.
Defined.

(** ** More on reset and completion *)

Lemma reset_client_stats cfg o uid w :
  init_ok o w = true ->
  stats (core (world_after (reset_client cfg o uid w))) = initialised_stats w.
Proof.
  destruct w as [c d], o as [t f1 f2 lq f3 f4 rp e f5 f6].
  unfold init_ok, initialised_stats, world_after. unfold_engine. red_engine.
  destruct (_initialized c) eqn:Hi; red_engine.
  2: destruct f1; red_engine; [done|destruct f2; red_engine; [done|]].
  all: intros _; rewrite lookup_insert_eq; red_engine; destruct f6; red_engine;
    red_stats; rewrite ?Hi; done.
Qed.

(** X25.  [reset_client] stores an empty, incomplete row for the client and
    leaves the counters alone: a client who was not known is not counted, and
    the completion of a client who was complete is not taken back, so that
    the next completion of the same client is counted again. *)
Theorem reset_keeps_counters cfg o uid w :
  _initialized (core w) = true -> save_client_fails o = false ->
  let res := reset_client cfg o uid w in
  outcome_of res = Returned true
  /\ get_stats (core (world_after res)) =
     mkStatsView (users_count (get_stats (core w))) (messages_count (get_stats (core w)))
       (completions_count (get_stats (core w)))
       (Z.of_nat (size (delete uid (conversation_history (core w)))))
  /\ db_clients (db (world_after res)) !! uid =
     Some (mkClientRow "" None false 0 (ClientInfo_created_at_default cfg) (now o)).
Proof.
  intros Hini Hsave res. subst res.
  assert (Hinit : init_ok o w = true) by (unfold init_ok; by rewrite Hini).
  pose proof (reset_client_stats cfg o uid w Hinit) as Hst.
  unfold initialised_stats in Hst. rewrite Hini in Hst.
  destruct (reset_client_ok cfg o uid w Hinit Hsave) as (w' & Hr & _ & Hh & Hrows & _).
  rewrite Hr in *. unfold outcome_of, world_after in *. cbn [fst snd] in *.
  split_and!; [done| |].
  - unfold get_stats. cbn [users_count messages_count completions_count]. by rewrite Hst, Hh.
  - rewrite Hrows. apply lookup_insert_eq.
Qed.

Lemma reset_keeps_counters_witness :
  let o := Sample.calm 70 None None in
  let res := reset_client Sample.settings o "u" Sample.completed in
  outcome_of res = Returned true
  /\ get_stats (core (world_after res)) =
     mkStatsView (users_count (get_stats (core Sample.completed)))
       (messages_count (get_stats (core Sample.completed)))
       (completions_count (get_stats (core Sample.completed)))
       (Z.of_nat (size (delete "u" (conversation_history (core Sample.completed)))))
  /\ db_clients (db (world_after res)) !! "u" =
     Some (mkClientRow "" None false 0 (ClientInfo_created_at_default Sample.settings) (now o)).
Proof.
  apply (reset_keeps_counters Sample.settings (Sample.calm 70 None None) "u" Sample.completed);
    reflexivity.
Defined.

Lemma run_settled cfg uid calls w :
  cache_keys_ok w -> settled uid w -> no_reset_of uid calls = true ->
  settled uid (run cfg calls w).
Proof.
  revert w. induction calls as [|[o c] calls IH]; intros w Hkeys Hs Hno; [done|].
  cbn [no_reset_of forallb snd] in Hno. apply andb_true_iff in Hno as [Hc Hno].
  apply negb_true_iff in Hc. cbn [run].
  destruct (exec cfg o c w) as [w' evs] eqn:H.
  pose proof (exec_keys cfg o c w Hkeys) as Hkeys'. rewrite H in Hkeys'. cbn [fst] in *.
  apply IH; [done| |done].
  by destruct (exec_settled cfg o c uid w w' evs Hkeys Hs Hc H).
Qed.

(** X26.  Completion is permanent.  Once the record of a client is stored as
    complete, it stays complete over every sequence of turns, lookups,
    resets of other clients and restarts, whatever fails in between; only a
    reset of this client makes it incomplete again. *)
Theorem completion_is_permanent cfg uid calls w row :
  cache_keys_ok w ->
  db_clients (db w) !! uid = Some row -> row_is_complete row = true ->
  is_complete (resolve cfg uid w) = true ->
  no_reset_of uid calls = true ->
  let w' := run cfg calls w in
  is_complete (resolve cfg uid w') = true
  /\ exists row', db_clients (db w') !! uid = Some row' /\ row_is_complete row' = true.
Proof.
  intros Hkeys Hrow Hcomplete Hc Hno w'. subst w'.
  assert (Hs : settled uid w).
  { split; [by exists row|]. intros c Hcl. unfold resolve in Hc. by rewrite Hcl in Hc. }
  pose proof (run_settled cfg uid calls w Hkeys Hs Hno) as Hs'.
  split; [by apply settled_resolve|]. by destruct Hs' as [? _].
Qed.

Lemma completion_is_permanent_witness :
  let calls :=
    [(Sample.calm 60 (Some "anything else?") None, CallChat "u" "thanks");
     (Sample.calm 61 None None, CallRestart);
     (mkOutside 62 false false false false (Some "hm") None false true, CallChat "u" "hi")] in
  let w' := run Sample.settings calls Sample.completed in
  is_complete (resolve Sample.settings "u" w') = true
  /\ exists row', db_clients (db w') !! "u" = Some row' /\ row_is_complete row' = true.
Proof.
  apply (completion_is_permanent Sample.settings "u"
           [(Sample.calm 60 (Some "anything else?") None, CallChat "u" "thanks");
            (Sample.calm 61 None None, CallRestart);
            (mkOutside 62 false false false false (Some "hm") None false true,
             CallChat "u" "hi")]
           Sample.completed
           (client_row Sample.settings 50 (resolve Sample.settings "u" Sample.completed))).
  - unfold Sample.completed, Sample.fresh. apply run_keys, boot_keys.
  - by vm_compute.
  - reflexivity.
  - reflexivity.
  - reflexivity.
Defined.

(** ** Transcript and extraction *)

(** X27.  The transcript of a dialogue in which no database block fails is
    the transcript before it followed by its exchanges in order, each the
    inbound message and the reply as the client got it, that is without the
    marker; the stored row holds the same text. *)
Theorem transcript_is_the_exchanges cfg uid turns w :
  forallb (fun om => smooth (fst om)) turns = true ->
  user_id (resolve cfg uid w) = uid ->
  let w' := run cfg (dialogue uid turns) w in
  raw_data (resolve cfg uid w') =
  fold_left (with_exchange cfg) turns (raw_data (resolve cfg uid w))
  /\ (turns <> [] ->
      exists row, db_clients (db w') !! uid = Some row
                  /\ row_raw_data row = raw_data (resolve cfg uid w')).
Proof.
  revert w. induction turns as [|[o msg] turns IH]; intros w Hall Hid w'; subst w'.
  - cbn. done.
  - cbn [forallb fst] in Hall. apply andb_true_iff in Hall as [Ho Hall].
    destruct (smooth_ok o uid w Ho) as [Hinit Hfault].
    destruct (chat_ok_record cfg o uid msg w Hinit Hfault Hid) as (Hres & Hcl & Hrow & Hlog).
    cbn [dialogue map run fst snd exec fold_left].
    unfold world_after in *.
    destruct (chat cfg o uid msg w) as [[r w1] ev1]. cbn [fst snd] in *.
    destruct (answered_record_fields cfg o (resolve cfg uid w) msg) as [Hu _].
    rewrite <- Hres in Hu.
    destruct (IH w1 Hall) as (Hraw & Hstored); [congruence|].
    fold (dialogue uid turns). split.
    + rewrite Hraw. f_equal. rewrite Hres.
      unfold answered_record, received_record, with_exchange. cbn [fst snd].
      by destruct (marker_seen cfg o).
    + intros _. destruct turns as [|om turns].
      * cbn [dialogue map run]. eexists. split; [exact Hrow|]. done.
      * by apply Hstored.
Qed.

Lemma transcript_is_the_exchanges_witness :
  let turns := [(Sample.calm 1 (Some "hello") None, "hi");
                (Sample.closing, "my phone is 1")] in
  let w' := run Sample.settings (dialogue "u" turns) Sample.fresh in
  raw_data (resolve Sample.settings "u" w') =
  fold_left (with_exchange Sample.settings) turns
    (raw_data (resolve Sample.settings "u" Sample.fresh))
  /\ (turns <> [] ->
      exists row, db_clients (db w') !! "u" = Some row
                  /\ row_raw_data row = raw_data (resolve Sample.settings "u" w')).
Proof.
  apply (transcript_is_the_exchanges Sample.settings "u"
           [(Sample.calm 1 (Some "hello") None, "hi"); (Sample.closing, "my phone is 1")]
           Sample.fresh); reflexivity.
Defined.

(** X28.  A failure of the extraction does not fail the turn.  When the
    initialisation and the database blocks of the turn get through, the
    reply carries the marker and the extraction call fails, or its prompt
    cannot be built, the turn is answered as completed with an empty dict of
    extracted data; the record is complete, and its row is stored as
    complete with no data.  When the prompt cannot be built the provider is
    not called a second time. *)
Theorem failed_extraction_completes_empty cfg o uid msg w :
  init_ok o w = true -> turn_store_fault o uid w = false ->
  user_id (resolve cfg uid w) = uid ->
  marker_seen cfg o = true ->
  gpt_extraction o = None
  \/ format_extraction_prompt cfg (raw_data (received_record (resolve cfg uid w) msg)) = None ->
  let res := chat cfg o uid msg w in
  exists c' row,
    outcome_of res = Returned (mkBotResponse (bot_text cfg o) true (Some []))
    /\ clients (core (world_after res)) !! uid = Some c'
    /\ is_complete c' = true /\ final_data c' = Some []
    /\ db_clients (db (world_after res)) !! uid = Some row
    /\ row_is_complete row = true /\ row_final_data row = None
    /\ (format_extraction_prompt cfg (raw_data (received_record (resolve cfg uid w) msg))
        = None ->
        existsb is_extraction_call (events_of res) = false).
Proof.
  intros Hinit Hfault Hid Hm Hfail res. subst res.
  destruct (chat_ok cfg o uid msg w Hinit Hfault) as (w' & -> & Hcl & Hrows & _).
  unfold outcome_of, world_after, events_of. cbn [fst snd].
  assert (Hx : extraction_result cfg o (raw_data (received_record (resolve cfg uid w) msg))
               = []).
  { unfold extraction_result. destruct Hfail as [-> | ->]; [|done].
    by destruct (format_extraction_prompt cfg _). }
  eexists _, _. split_and!.
  - unfold turn_response. by rewrite Hm, Hx.
  - rewrite Hcl. apply lookup_insert_eq.
  - unfold answered_record. by rewrite Hm.
  - unfold answered_record. rewrite Hm, Hx. reflexivity.
  - rewrite Hrows, Hid. apply lookup_insert_eq.
  - unfold answered_record. by rewrite Hm.
  - unfold answered_record, client_row. rewrite Hm, Hx. reflexivity.
  - intros Hf. unfold turn_events, extraction_events. rewrite Hm, Hf.
    cbn [app existsb is_extraction_call orb].
    rewrite existsb_app, no_extraction_in_map by done.
    destruct (true && negb (is_complete (resolve cfg uid w))); [|done].
    by rewrite no_extraction_in_map.
Qed.

Lemma failed_extraction_completes_empty_witness :
  let o := Sample.calm 50 (Some "thank you [DONE]") None in
  let res := chat Sample.settings o "u" "my phone is 1" Sample.fresh in
  exists c' row,
    outcome_of res = Returned (mkBotResponse (bot_text Sample.settings o) true (Some []))
    /\ clients (core (world_after res)) !! "u" = Some c'
    /\ is_complete c' = true /\ final_data c' = Some []
    /\ db_clients (db (world_after res)) !! "u" = Some row
    /\ row_is_complete row = true /\ row_final_data row = None
    /\ (format_extraction_prompt Sample.settings
          (raw_data (received_record (resolve Sample.settings "u" Sample.fresh)
                       "my phone is 1")) = None ->
        existsb is_extraction_call (events_of res) = false).
Proof.
  apply (failed_extraction_completes_empty Sample.settings
           (Sample.calm 50 (Some "thank you [DONE]") None) "u" "my phone is 1" Sample.fresh);
    [reflexivity | reflexivity | reflexivity | reflexivity | by left].
Defined.
